(** * Turing Enumerable: a shallow embedding of [turing.enumerable.js]

    The module [turing.enumerable] is a small functional-iteration library:
    one iteration primitive ([each]) with an exception-based early exit
    ([Break]), transform and query operations built on it (each with a
    host-native fast path), and a chaining wrapper ([Chainer]).

    The embedding has two parts.

    - [Module Enumerable]: JavaScript values are snapshots (an array is the
      list of its elements together with its reference identity), callbacks
      are arbitrary functions that may change a user state and may throw,
      and every operation is a computation in a state-and-exception monad.
      Collections are not mutated while they are traversed.
    - [Module Store]: arrays live in an explicit store and are updated in
      place; it is used for [flatten], whose callback pushes onto its
      accumulator. *)

From Stdlib Require Import List ZArith String Ascii Bool Lia.
From Stdlib Require Import Decimal DecimalString.
Import ListNotations.

Local Open Scope string_scope.
Local Open Scope list_scope.

Set Warnings "-register-all".

Module Enumerable.

(** ** Values *)

(** JavaScript values as this library observes them.  Numbers are the
    integer-valued ones.  An array, an object, a function and a chain
    wrapper carry their reference identity [id]; an object lists its own
    enumerable properties and the enumerable properties it inherits, both in
    [for-in] order; a function object seen as data only shows its [length]
    (its declared arity); an error object created by the host shows its
    [name] and has no enumerable property. *)
Inductive value : Type :=
| VUndef
| VNull
| VBool (b : bool)
| VNum (n : Z)
| VStr (s : string)
| VArr (id : nat) (elems : list value)
| VObj (id : nat) (own inherited : list (string * value))
| VFunc (id : nat) (arity : nat)
| VChainer (id : nat)
| VError (id : nat) (name : string).

(** [Break: {}], allocated once when the module is loaded. *)
Definition Break_id : nat := 0.
Definition Break : value := VObj Break_id [] [].

(** ToBoolean. *)
Definition truthy (v : value) : bool :=
  match v with
  | VUndef | VNull => false
  | VBool b => b
  | VNum n => negb (Z.eqb n 0)
  | VStr s => negb (String.eqb s "")
  | VArr _ _ | VObj _ _ _ | VFunc _ _ | VChainer _ | VError _ _ => true
  end.

(** [a === b]: primitives by value, everything else by reference. *)
Definition strict_eq (a b : value) : bool :=
  match a, b with
  | VUndef, VUndef => true
  | VNull, VNull => true
  | VBool x, VBool y => Bool.eqb x y
  | VNum x, VNum y => Z.eqb x y
  | VStr x, VStr y => String.eqb x y
  | VArr i _, VArr j _ => Nat.eqb i j
  | VObj i _ _, VObj j _ _ => Nat.eqb i j
  | VFunc i _, VFunc j _ => Nat.eqb i j
  | VChainer i, VChainer j => Nat.eqb i j
  | VError i _, VError j _ => Nat.eqb i j
  | _, _ => false
  end.

(** [x == o] where [o] is a plain object that keeps the default [toString]
    and [valueOf] (as [Break] does): another object is compared by
    reference; a string is compared with ToPrimitive(o), which is
    ["[object Object]"]; a number or a boolean is compared with
    ToNumber("[object Object]"), which is NaN; [null] and [undefined] are
    only equal to each other. *)
Definition loose_eq_plain_object (x o : value) : bool :=
  match x with
  | VStr s => String.eqb s "[object Object]"
  | VUndef | VNull | VBool _ | VNum _ => false
  | VArr _ _ | VObj _ _ _ | VFunc _ _ | VChainer _ | VError _ _ =>
      strict_eq x o
  end.

(** The test of [each]'s handler: [e != global.enumerable.Break]. *)
Definition differs_from_Break (e : value) : bool :=
  negb (loose_eq_plain_object e Break).

(** ** Property keys *)

Definition key_of_index (i : nat) : string :=
  NilZero.string_of_uint (Nat.to_uint i).

(** A key is an array index when it is the canonical decimal form of a
    natural number. *)
Definition index_of_key (k : string) : option nat :=
  match NilZero.uint_of_string k with
  | Some u =>
      let i := Nat.of_uint u in
      if String.eqb (key_of_index i) k then Some i else None
  | None => None
  end.

Fixpoint lookup (k : string) (ps : list (string * value)) : option value :=
  match ps with
  | [] => None
  | (k', v) :: ps' => if String.eqb k k' then Some v else lookup k ps'
  end.

Definition keys (ps : list (string * value)) : list string :=
  List.map fst ps.

Definition mem_key (k : string) (ks : list string) : bool :=
  existsb (String.eqb k) ks.

Fixpoint chars (s : string) : list value :=
  match s with
  | EmptyString => []
  | String c s' => VStr (String c EmptyString) :: chars s'
  end.

(** ** Conversions of the host *)

Definition join (sep : string) (parts : list string) : string :=
  match parts with
  | [] => ""
  | p :: ps => fold_left (fun acc q => (acc ++ sep ++ q)%string) ps p
  end.

(** ToString.  The source text of a function is not part of the model and
    reads as the fixed text below. *)
Fixpoint to_string (v : value) : string :=
  match v with
  | VUndef => "undefined"
  | VNull => "null"
  | VBool b => if b then "true" else "false"
  | VNum n => NilZero.string_of_int (Z.to_int n)
  | VStr s => s
  | VArr _ xs =>
      join ","
        (List.map (fun x => match x with
                            | VUndef | VNull => ""
                            | _ => to_string x
                            end) xs)
  | VObj _ _ _ | VChainer _ => "[object Object]"
  | VFunc _ _ => "function () { [native code] }"
  | VError _ name => name
  end.

(** ToNumber, [None] being NaN.  Of the string literals only the empty
    string and the decimal integers are read as numbers. *)
Definition to_number (v : value) : option Z :=
  let of_text (s : string) :=
    if String.eqb s "" then Some 0%Z
    else match NilZero.int_of_string s with
         | Some d => Some (Z.of_int d)
         | None => None
         end in
  match v with
  | VUndef => None
  | VNull => Some 0%Z
  | VBool b => Some (if b then 1%Z else 0%Z)
  | VNum n => Some n
  | VStr s => of_text s
  | _ => of_text (to_string v)
  end.

(** ToInteger and ToUint32. *)
Definition to_integer (v : value) : Z :=
  match to_number v with Some n => n | None => 0%Z end.

Definition to_uint32 (v : value) : Z :=
  (to_integer v mod 2 ^ 32)%Z.

(** ** The host and the helpers of [turing.core] *)

(** Which of the [Array.prototype] methods the host platform provides
    (the left operand of each test [Array.prototype.m && ...]). *)
Record Host : Type := mkHost {
  has_forEach : bool;
  has_map : bool;
  has_filter : bool;
  has_reduce : bool;
  has_some : bool;
  has_every : bool;
  has_indexOf : bool
}.

Definition modern : Host := mkHost true true true true true true true.
Definition legacy : Host := mkHost false false false false false false false.

(** Modelled from the spec: [global.isNumber] of [turing.core], which is not
    among the sources; the spec speaks of a value that "exposes a numeric
    length". *)
Definition isNumber (v : value) : bool :=
  match v with VNum _ => true | _ => false end.

(** Modelled from the spec: [global.isArray] of [turing.core], which is not
    among the sources; the spec speaks of "a true ordered sequence". *)
Definition isArray (v : value) : bool :=
  match v with VArr _ _ => true | _ => false end.

(** ** The members of the module and of the chain wrapper *)

(** The functions defined in the object literal [global.enumerable]. *)
Inductive member_fn : Type :=
| F_each | F_map | F_filter | F_reject | F_detect | F_reduce | F_flatten
| F_tail | F_invoke | F_pluck | F_some | F_all | F_include | F_chain
| F_identity.

Fixpoint find_member {A} (name : string) (tbl : list (string * A)) : option A :=
  match tbl with
  | [] => None
  | (n, f) :: tbl' => if String.eqb name n then Some f else find_member name tbl'
  end.

(** [global.enumerable.a = global.enumerable.b]. *)
Definition alias (a b : string) (tbl : list (string * member_fn))
  : list (string * member_fn) :=
  match find_member b tbl with
  | Some f => tbl ++ [(a, f)]
  | None => tbl
  end.

(** The function-valued properties of [global.enumerable], once the
    aliases are set. *)
Definition enumerable_module : list (string * member_fn) :=
  alias "every" "all"
   (alias "any" "some"
     (alias "rest" "tail"
       (alias "inject" "reduce"
         (alias "collect" "map"
           (alias "select" "filter"
              [("each", F_each); ("map", F_map); ("filter", F_filter);
               ("reject", F_reject); ("detect", F_detect);
               ("reduce", F_reduce); ("flatten", F_flatten);
               ("tail", F_tail); ("invoke", F_invoke); ("pluck", F_pluck);
               ("some", F_some); ("all", F_all); ("include", F_include);
               ("chain", F_chain); ("identity", F_identity)]))))).

(** [global.chainableMethods]. *)
Definition chainableMethods : list string :=
  ["map"; "collect"; "detect"; "filter"; "reduce"; "each";
   "tail"; "rest"; "reject"; "pluck"; "any"; "some"; "all"].

(** The methods that the loop over [chainableMethods] adds to
    [Chainer.prototype], each with the [method] it captured
    ([global.enumerable[methodName]]). *)
Definition Chainer_prototype : list (string * option member_fn) :=
  List.map (fun methodName => (methodName, find_member methodName enumerable_module))
    chainableMethods.

(** Whether a chain wrapper has a chaining method of that name. *)
Definition chainable (name : string) : bool :=
  mem_key name (List.map fst Chainer_prototype).

(** A computation either returns or throws. *)
Inductive result (A : Type) : Type :=
| Ret (a : A)
| Throw (e : value).
Arguments Ret {A} a.
Arguments Throw {A} e.

Section Monad.

(** The state a caller's callbacks may read and write. *)
Context {U : Type}.

(** ** State, results and the monad *)

(** [next_id] is the next fresh reference; [chainers] holds the [results]
    slot of every chain wrapper created so far, [VChainer i] being the
    [i]-th. *)
Record state : Type := mkState {
  next_id : nat;
  chainers : list value;
  user : U
}.

(** A computation reads and writes the program state and the variables [L]
    of the enclosing function that its closures capture ([results], [memo],
    [found], ...), and either returns or throws. *)
Definition M (L A : Type) : Type := L -> state -> result A * L * state.

Definition ret {L A} (a : A) : M L A := fun l s => (Ret a, l, s).

Definition throw {L A} (e : value) : M L A := fun l s => (Throw e, l, s).

Definition bind {L A B} (m : M L A) (k : A -> M L B) : M L B :=
  fun l s =>
    match m l s with
    | (Ret a, l', s') => k a l' s'
    | (Throw e, l', s') => (Throw e, l', s')
    end.

Definition try_catch {L A} (m : M L A) (h : value -> M L A) : M L A :=
  fun l s =>
    match m l s with
    | (Ret a, l', s') => (Ret a, l', s')
    | (Throw e, l', s') => h e l' s'
    end.

Definition get_local {L} : M L L := fun l s => (Ret l, l, s).

Definition set_local {L} (l' : L) : M L unit := fun _ s => (Ret tt, l', s).

(** Runs a callback written by the caller, which sees none of the
    variables of the library's functions. *)
Definition lift {L A} (m : M unit A) : M L A :=
  fun l s => let '(r, _, s') := m tt s in (r, l, s').

(** Runs the body of a function whose local variables start as [l0];
    yields the body's value together with the final locals. *)
Definition with_locals {L L0 A} (l0 : L0) (m : M L0 A) : M L (A * L0) :=
  fun l s =>
    match m l0 s with
    | (Ret a, l0', s') => (Ret (a, l0'), l, s')
    | (Throw e, _, s') => (Throw e, l, s')
    end.

(** Allocation of a new object: [[]], [[index, value]], an error. *)
Definition alloc {L} : M L nat :=
  fun l s => (Ret (next_id s), l, mkState (S (next_id s)) (chainers s) (user s)).

Notation "x <- m ;; k" := (bind m (fun x => k))
  (at level 61, m at next level, right associativity).
Notation "m ;;; k" := (bind m (fun _ => k))
  (at level 61, right associativity).

(** ** Functions as arguments *)

(** A function object: its identity, its [length] and what a call does,
    given the receiver ([this]) and the arguments. *)
Record closure (L : Type) : Type := mkClosure {
  fn_id : nat;
  fn_arity : nat;
  fn_body : value -> list value -> M L value
}.
Arguments mkClosure {L} _ _ _.
Arguments fn_id {L} _.
Arguments fn_arity {L} _.
Arguments fn_body {L} _ _ _.

(** What a caller may pass in any argument position: data or a function. *)
Inductive jsval (L : Type) : Type :=
| JVal (v : value)
| JFun (f : closure L).
Arguments JVal {L} v.
Arguments JFun {L} f.

Definition to_value {L} (j : jsval L) : value :=
  match j with
  | JVal v => v
  | JFun f => VFunc (fn_id f) (fn_arity f)
  end.

(** An anonymous function expression of the library itself. *)
Definition lambda {L} (arity : nat) (body : value -> list value -> M L value)
  : jsval L :=
  JFun (mkClosure 0 arity body).

Definition arg (i : nat) (args : list value) : value := nth i args VUndef.

(** A [TypeError] raised by the host: a new error object. *)
Definition throw_type_error {L A} : M L A :=
  id <- alloc ;; throw (VError id "TypeError").

(** [f.call(this, args...)] and [f.apply(this, args)]; an [f] that holds
    data has no callable [call]. *)
Definition call {L} (f : jsval L) (this : value) (args : list value)
  : M L value :=
  match f with
  | JFun c => fn_body c this args
  | JVal _ => throw_type_error
  end.

(** A caller's function, run from inside one of the library's closures. *)
Definition lift_fn {L} (f : jsval unit) : jsval L :=
  match f with
  | JVal v => JVal v
  | JFun c =>
      JFun (mkClosure (fn_id c) (fn_arity c)
              (fun this args => lift (fn_body c this args)))
  end.

(** ** Property access *)

(** [v[key]] for a [v] other than [null] and [undefined] and a property
    that holds data ([cs] are the [results] slots of the chain wrappers);
    a property that is absent reads as [undefined]. *)
Definition prop (cs : list value) (v : value) (key : string) : value :=
  match v with
  | VStr s =>
      if String.eqb key "length" then VNum (Z.of_nat (String.length s))
      else match index_of_key key with
           | Some i => nth i (chars s) VUndef
           | None => VUndef
           end
  | VArr _ xs =>
      if String.eqb key "length" then VNum (Z.of_nat (List.length xs))
      else match index_of_key key with
           | Some i => nth i xs VUndef
           | None => VUndef
           end
  | VObj _ own inh =>
      match lookup key own with
      | Some x => x
      | None => match lookup key inh with
                | Some x => x
                | None => VUndef
                end
      end
  | VFunc _ n =>
      if String.eqb key "length" then VNum (Z.of_nat n) else VUndef
  | VChainer i =>
      if String.eqb key "results" then nth i cs VUndef else VUndef
  | VError _ name =>
      if String.eqb key "name" then VStr name else VUndef
  | VUndef | VNull | VBool _ | VNum _ => VUndef
  end.

Definition nullish (v : value) : bool :=
  match v with VUndef | VNull => true | _ => false end.

(** [v[key]] as an expression: reading a property of [null] or [undefined]
    is a [TypeError]. *)
Definition get_prop {L} (v : value) (key : string) : M L value :=
  if nullish v then throw_type_error
  else fun l s => (Ret (prop (chainers s) v key), l, s).

(** [v.m === Array.prototype.m] for a method [m] the host provides: the
    slot of an array is the built-in one; no other value has it. *)
Definition has_native_method {L} (v : value) : M L bool :=
  if nullish v then throw_type_error else ret (isArray v).

(** The keys a [for (key in v)] loop visits: the own enumerable ones, then
    the inherited ones that no own property hides (for a chain wrapper,
    the methods of [Chainer.prototype]). *)
Definition forin_keys (v : value) : list string :=
  match v with
  | VArr _ xs => List.map key_of_index (seq 0 (List.length xs))
  | VStr s => List.map key_of_index (seq 0 (String.length s))
  | VObj _ own inh =>
      keys own ++ List.filter (fun k => negb (mem_key k (keys own))) (keys inh)
  | VChainer _ => "results" :: "values" :: chainableMethods
  | _ => []
  end.

(** [hasOwnProperty.call(v, key)]. *)
Definition has_own_property (v : value) (key : string) : bool :=
  match v with
  | VArr _ xs =>
      String.eqb key "length" ||
      match index_of_key key with
      | Some i => Nat.ltb i (List.length xs)
      | None => false
      end
  | VStr s =>
      String.eqb key "length" ||
      match index_of_key key with
      | Some i => Nat.ltb i (String.length s)
      | None => false
      end
  | VObj _ own _ => mem_key key (keys own)
  | VFunc _ _ => String.eqb key "length"
  | VChainer _ => String.eqb key "results"
  | _ => false
  end.

(** ** Loops *)

(** The statements of a loop body, once per item, in order; a throw leaves
    the loop. *)
Fixpoint for_list {L A} (xs : list A) (body : A -> M L unit) : M L unit :=
  match xs with
  | [] => ret tt
  | x :: xs' => body x ;;; for_list xs' body
  end.

(** [for (var i = 0; i < l; i++)]. *)
Definition indices (l : Z) : list nat := seq 0 (Z.to_nat l).

(** [v[i]] for a number [i]. *)
Definition index_prop (cs : list value) (v : value) (i : nat) : value :=
  match v with
  | VArr _ xs => nth i xs VUndef
  | VStr s => nth i (chars s) VUndef
  | _ => prop cs v (key_of_index i)
  end.

Definition get_index {L} (v : value) (i : nat) : M L value :=
  if nullish v then throw_type_error
  else fun l s => (Ret (index_prop (chainers s) v i), l, s).

Definition elements (v : value) : list value :=
  match v with VArr _ xs => xs | _ => [] end.

(** The indices [k] of an array from 0 to its length, each with the
    element read there ([kValue]). *)
Definition indexed (xs : list value) : list (nat * value) :=
  List.map (fun k => (k, nth k xs VUndef)) (seq 0 (List.length xs)).

Definition callable {L} (f : jsval L) : bool :=
  match f with JFun _ => true | JVal _ => false end.

Definition num (i : nat) : value := VNum (Z.of_nat i).

(** ** The host's array methods (ECMAScript 5.1, 15.4.4), on an array
    without holes *)

(** [O.forEach(callbackfn, thisArg)]. *)
Definition native_forEach {L} (O : value) (callbackfn : jsval L)
  (thisArg : value) : M L value :=
  if callable callbackfn then
    for_list (indexed (elements O))
      (fun kv => call callbackfn thisArg [snd kv; num (fst kv); O] ;;; ret tt) ;;;
    ret VUndef
  else throw_type_error.

Fixpoint map_loop {L} (O : value) (callbackfn : jsval L) (thisArg : value)
  (items : list (nat * value)) (A : list value) : M L (list value) :=
  match items with
  | [] => ret A
  | (k, kValue) :: rest =>
      mapped <- call callbackfn thisArg [kValue; num k; O] ;;
      map_loop O callbackfn thisArg rest (A ++ [mapped])
  end.

(** [O.map(callbackfn, thisArg)]. *)
Definition native_map {L} (O : value) (callbackfn : jsval L)
  (thisArg : value) : M L value :=
  if callable callbackfn then
    id <- alloc ;;
    A <- map_loop O callbackfn thisArg (indexed (elements O)) [] ;;
    ret (VArr id A)
  else throw_type_error.

Fixpoint filter_loop {L} (O : value) (callbackfn : jsval L) (thisArg : value)
  (items : list (nat * value)) (A : list value) : M L (list value) :=
  match items with
  | [] => ret A
  | (k, kValue) :: rest =>
      selected <- call callbackfn thisArg [kValue; num k; O] ;;
      filter_loop O callbackfn thisArg rest
        (if truthy selected then A ++ [kValue] else A)
  end.

(** [O.filter(callbackfn, thisArg)]. *)
Definition native_filter {L} (O : value) (callbackfn : jsval L)
  (thisArg : value) : M L value :=
  if callable callbackfn then
    id <- alloc ;;
    A <- filter_loop O callbackfn thisArg (indexed (elements O)) [] ;;
    ret (VArr id A)
  else throw_type_error.

Fixpoint reduce_loop {L} (O : value) (callbackfn : jsval L)
  (items : list (nat * value)) (accumulator : value) : M L value :=
  match items with
  | [] => ret accumulator
  | (k, kValue) :: rest =>
      acc <- call callbackfn VUndef [accumulator; kValue; num k; O] ;;
      reduce_loop O callbackfn rest acc
  end.

(** [O.reduce(callbackfn, initialValue)], with the initial value present. *)
Definition native_reduce {L} (O : value) (callbackfn : jsval L)
  (initialValue : value) : M L value :=
  if callable callbackfn then
    reduce_loop O callbackfn (indexed (elements O)) initialValue
  else throw_type_error.

Fixpoint some_loop {L} (O : value) (callbackfn : jsval L) (thisArg : value)
  (items : list (nat * value)) : M L value :=
  match items with
  | [] => ret (VBool false)
  | (k, kValue) :: rest =>
      testResult <- call callbackfn thisArg [kValue; num k; O] ;;
      if truthy testResult then ret (VBool true)
      else some_loop O callbackfn thisArg rest
  end.

(** [O.some(callbackfn, thisArg)]. *)
Definition native_some {L} (O : value) (callbackfn : jsval L)
  (thisArg : value) : M L value :=
  if callable callbackfn then
    some_loop O callbackfn thisArg (indexed (elements O))
  else throw_type_error.

Fixpoint every_loop {L} (O : value) (callbackfn : jsval L) (thisArg : value)
  (items : list (nat * value)) : M L value :=
  match items with
  | [] => ret (VBool true)
  | (k, kValue) :: rest =>
      testResult <- call callbackfn thisArg [kValue; num k; O] ;;
      if truthy testResult then every_loop O callbackfn thisArg rest
      else ret (VBool false)
  end.

(** [O.every(callbackfn, thisArg)]. *)
Definition native_every {L} (O : value) (callbackfn : jsval L)
  (thisArg : value) : M L value :=
  if callable callbackfn then
    every_loop O callbackfn thisArg (indexed (elements O))
  else throw_type_error.

Fixpoint indexOf_loop (searchElement : value) (items : list (nat * value)) : Z :=
  match items with
  | [] => (-1)%Z
  | (k, elementK) :: rest =>
      if strict_eq searchElement elementK then Z.of_nat k
      else indexOf_loop searchElement rest
  end.

(** [O.indexOf(searchElement)]. *)
Definition native_indexOf (O : value) (searchElement : value) : value :=
  VNum (indexOf_loop searchElement (indexed (elements O))).

(** Whether the test [Array.prototype.m && enumerable.m === Array.prototype.m]
    holds, [provided] being whether the host has the method; the right
    operand is only evaluated when the left one is truthy. *)
Definition native_slot {L} (provided : bool) (enumerable : value) : M L bool :=
  if provided then has_native_method enumerable else ret false.

(** Modelled from the spec: [global.bind] of [turing.core], which is not
    among the sources; the spec has the context "bound via a
    callback-wrapping adapter". *)
Definition bind_context {L} (callback : jsval L) (context : value) : jsval L :=
  lambda 0 (fun _ args => call callback context args).

(** ** The traversal engine *)

(** The [try] block of [each]: the three ways to visit the elements. *)
Definition traverse {L} (host : Host) (enumerable : value) (callback : jsval L)
  (context : value) : M L unit :=
  native <- native_slot (has_forEach host) enumerable ;;
  if native then
    native_forEach enumerable callback context ;;; ret tt
  else
    length <- get_prop enumerable "length" ;;
    if isNumber length then
      for_list (indices (match length with VNum l => l | _ => 0%Z end))
        (fun i =>
           x <- get_index enumerable i ;;
           call callback enumerable [x; num i; enumerable] ;;; ret tt)
    else
      for_list (forin_keys enumerable)
        (fun key =>
           if has_own_property enumerable key then
             x <- get_prop enumerable key ;;
             call callback context [x; VStr key; enumerable] ;;; ret tt
           else ret tt).

(** The [catch] block of [each]: [if (e != global.enumerable.Break) throw e]. *)
Definition handler {L} (e : value) : M L unit :=
  if differs_from_Break e then throw e else ret tt.

(** [each: function(enumerable, callback, context)]. *)
Definition each {L} (host : Host) (enumerable : value) (callback : jsval L)
  (context : value) : M L value :=
  try_catch (traverse host enumerable callback context) handler ;;;
  ret enumerable.

(** ** Transform and query operations *)

(** An operation called by a user runs in [M unit]: the variables of the
    library's own functions are introduced by [with_locals], and the
    anonymous function that an operation hands to [each] reads and assigns
    them. *)

(** The function that [map] hands to [each]; the variable is [results]. *)
Definition map_step (callback : jsval unit) (context : value)
  : jsval (list value) :=
  lambda 3 (fun _ args =>
    x <- call (lift_fn callback) context [arg 0 args; arg 1 args; arg 2 args] ;;
    results <- get_local ;;
    set_local (results ++ [x]) ;;;
    ret VUndef).

(** [map: function(enumerable, callback, context)]. *)
Definition map (host : Host) (enumerable : value) (callback : jsval unit)
  (context : value) : M unit value :=
  native <- native_slot (has_map host) enumerable ;;
  if native then native_map enumerable callback context
  else
    id <- alloc ;;
    r <- with_locals [] (each host enumerable (map_step callback context) VUndef) ;;
    ret (VArr id (snd r)).

(** The function that [filter] hands to [each]; the variable is
    [results]. *)
Definition filter_step (callback : jsval unit) (context : value)
  (pushIndex : bool) : jsval (list value) :=
  lambda 3 (fun _ args =>
    x <- call (lift_fn callback) context [arg 0 args; arg 1 args; arg 2 args] ;;
    if truthy x then
      if pushIndex then
        pair <- alloc ;;
        results <- get_local ;;
        set_local (results ++ [VArr pair [arg 1 args; arg 0 args]]) ;;;
        ret VUndef
      else
        results <- get_local ;;
        set_local (results ++ [arg 0 args]) ;;;
        ret VUndef
    else ret VUndef).

(** [filter: function(enumerable, callback, context)]. *)
Definition filter (host : Host) (enumerable : value) (callback : jsval unit)
  (context : value) : M unit value :=
  native <- native_slot (has_filter host) enumerable ;;
  if native then native_filter enumerable callback context
  else
    id <- alloc ;;
    let pushIndex := negb (isArray enumerable) in
    r <- with_locals []
           (each host enumerable (filter_step callback context pushIndex)
              VUndef) ;;
    ret (VArr id (snd r)).

(** The function that [detect] hands to [each]; the variable is
    [result]. *)
Definition detect_step (callback : jsval unit) (context : value)
  : jsval value :=
  lambda 3 (fun _ args =>
    x <- call (lift_fn callback) context [arg 0 args; arg 1 args; arg 2 args] ;;
    if truthy x then set_local (arg 0 args) ;;; throw Break
    else ret VUndef).

(** [detect: function(enumerable, callback, context)]. *)
Definition detect (host : Host) (enumerable : value) (callback : jsval unit)
  (context : value) : M unit value :=
  r <- with_locals VUndef
         (each host enumerable (detect_step callback context) VUndef) ;;
  ret (snd r).

(** The function that [reduce] hands to [each]; the variable is the
    parameter [memo]. *)
Definition reduce_step (callback : jsval unit) (context : value)
  : jsval value :=
  lambda 3 (fun _ args =>
    memo <- get_local ;;
    x <- call (lift_fn callback) context
           [memo; arg 0 args; arg 1 args; arg 2 args] ;;
    set_local x ;;;
    ret VUndef).

(** [reduce: function(enumerable, memo, callback, context)]. *)
Definition reduce (host : Host) (enumerable : value) (memo : value)
  (callback : jsval unit) (context : value) : M unit value :=
  native <- native_slot (has_reduce host) enumerable ;;
  if native then native_reduce enumerable (bind_context callback context) memo
  else
    r <- with_locals memo
           (each host enumerable (reduce_step callback context) VUndef) ;;
    ret (snd r).

(** [identity: function(value)]. *)
Definition identity {L} : jsval L :=
  lambda 1 (fun _ args => ret (arg 0 args)).

(** [callback || global.enumerable.identity]. *)
Definition or_identity {L} (callback : jsval L) : jsval L :=
  match callback with
  | JFun _ => callback
  | JVal v => if truthy v then callback else identity
  end.

(** The function that [some] hands to [each]; the variable is [result]. *)
Definition some_step (callback : jsval unit) (context : value) : jsval value :=
  lambda 3 (fun _ args =>
    x <- call (lift_fn callback) context [arg 0 args; arg 1 args; arg 2 args] ;;
    set_local x ;;;
    if truthy x then throw Break else ret VUndef).

(** [some: function(enumerable, callback, context)]. *)
Definition some (host : Host) (enumerable : value) (callback : jsval unit)
  (context : value) : M unit value :=
  let callback := or_identity callback in
  native <- native_slot (has_some host) enumerable ;;
  if native then native_some enumerable callback context
  else
    r <- with_locals (VBool false)
           (each host enumerable (some_step callback context) VUndef) ;;
    ret (snd r).

(** The function that [all] hands to [each]; the variable is [result]. *)
Definition all_step (callback : jsval unit) (context : value) : jsval value :=
  lambda 3 (fun _ args =>
    result <- get_local ;;
    x <- (if truthy result
          then call (lift_fn callback) context
                 [arg 0 args; arg 1 args; arg 2 args]
          else ret result) ;;
    set_local x ;;;
    if negb (truthy x) then throw Break else ret VUndef).

(** [all: function(enumerable, callback, context)]. *)
Definition all (host : Host) (enumerable : value) (callback : jsval unit)
  (context : value) : M unit value :=
  let callback := or_identity callback in
  native <- native_slot (has_every host) enumerable ;;
  if native then native_every enumerable callback context
  else
    r <- with_locals (VBool true)
           (each host enumerable (all_step callback context) VUndef) ;;
    ret (snd r).

(** The function that [include] hands to [each]; the variable is
    [found]. *)
Definition include_step (target : value) : jsval value :=
  lambda 2 (fun _ args =>
    let found := strict_eq (arg 0 args) target in
    set_local (VBool found) ;;;
    if found then throw Break else ret VUndef).

(** [include: function(enumerable, target)]. *)
Definition include (host : Host) (enumerable : value) (target : value)
  : M unit value :=
  native <- native_slot (has_indexOf host) enumerable ;;
  if native then
    ret (VBool (negb (strict_eq (native_indexOf enumerable target) (VNum (-1)))))
  else
    r <- with_locals (VBool false)
           (each host enumerable (include_step target) VUndef) ;;
    ret (snd r).

(** [Array.prototype.slice.apply(O, [start])] (ECMAScript 5.1,
    15.4.4.10), the end being absent; an index that [O] lacks reads as
    [undefined]. *)
Definition native_slice {L} (O : value) (start : value) : M L value :=
  if nullish O then throw_type_error
  else
    lenVal <- get_prop O "length" ;;
    let len := to_uint32 lenVal in
    let relativeStart := to_integer start in
    let k := if (relativeStart <? 0)%Z
             then Z.max (len + relativeStart) 0
             else Z.min relativeStart len in
    id <- alloc ;;
    fun l s =>
      (Ret (VArr id
              (List.map (index_prop (chainers s) O)
                 (seq (Z.to_nat k) (Z.to_nat (len - k))))), l, s).

(** [tail: function(enumerable, start)]. *)
Definition tail (enumerable : value) (start : value) : M unit value :=
  let start := match start with VUndef => VNum 1 | _ => start end in
  native_slice enumerable start.

(** [pluck: function(enumerable, key)]. *)
Definition pluck (host : Host) (enumerable : value) (key : value)
  : M unit value :=
  map host enumerable
    (lambda 1 (fun _ args => get_prop (arg 0 args) (to_string key)))
    VUndef.

(** ** The chain wrapper *)

(** The receiver of a call of one of the module's functions:
    [global.enumerable] itself for a call [turing.enumerable.f(...)], or the
    value a caller passed to [apply]. *)
Inductive receiver : Type :=
| TheModule
| This (v : value).

(** A function of the module, as [apply] sees it. *)
Definition method : Type := receiver -> list (jsval unit) -> M unit value.

Definition jarg {L} (i : nat) (args : list (jsval L)) : jsval L :=
  nth i args (JVal VUndef).

Definition set_results (i : nat) (v : value) : M unit unit :=
  fun l s =>
    (Ret tt, l,
     mkState (next_id s)
       (firstn i (chainers s) ++ v :: skipn (S i) (chainers s)) (user s)).

(** [chain: function(enumerable)], that is [new Chainer(enumerable)]. *)
Definition chain (enumerable : value) : M unit value :=
  fun l s =>
    (Ret (VChainer (List.length (chainers s))), l,
     mkState (next_id s) (chainers s ++ [enumerable]) (user s)).

(** [Chainer.prototype.values]. *)
Definition values (w : nat) : M unit value :=
  get_prop (VChainer w) "results".

(** The function stored in [Chainer.prototype[methodName]], for the
    function [method] of the module, called on the wrapper [w]. *)
Definition chained (method : method) (w : nat) (arguments : list (jsval unit))
  : M unit value :=
  results <- get_prop (VChainer w) "results" ;;
  let args := JVal results :: arguments in
  r <- method (This (VChainer w)) args ;;
  set_results w r ;;;
  ret (VChainer w).

Definition each_method (host : Host) : method :=
  fun _ a => each host (to_value (jarg 0 a)) (jarg 1 a) (to_value (jarg 2 a)).
Definition map_method (host : Host) : method :=
  fun _ a => map host (to_value (jarg 0 a)) (jarg 1 a) (to_value (jarg 2 a)).
Definition filter_method (host : Host) : method :=
  fun _ a => filter host (to_value (jarg 0 a)) (jarg 1 a) (to_value (jarg 2 a)).
Definition detect_method (host : Host) : method :=
  fun _ a => detect host (to_value (jarg 0 a)) (jarg 1 a) (to_value (jarg 2 a)).
Definition reduce_method (host : Host) : method :=
  fun _ a =>
    reduce host (to_value (jarg 0 a)) (to_value (jarg 1 a)) (jarg 2 a)
      (to_value (jarg 3 a)).
Definition tail_method : method :=
  fun _ a => tail (to_value (jarg 0 a)) (to_value (jarg 1 a)).
Definition pluck_method (host : Host) : method :=
  fun _ a => pluck host (to_value (jarg 0 a)) (to_value (jarg 1 a)).
Definition some_method (host : Host) : method :=
  fun _ a => some host (to_value (jarg 0 a)) (jarg 1 a) (to_value (jarg 2 a)).
Definition all_method (host : Host) : method :=
  fun _ a => all host (to_value (jarg 0 a)) (jarg 1 a) (to_value (jarg 2 a)).
Definition include_method (host : Host) : method :=
  fun _ a => include host (to_value (jarg 0 a)) (to_value (jarg 1 a)).
Definition chain_method : method :=
  fun _ a => chain (to_value (jarg 0 a)).
Definition identity_method : method :=
  fun _ a => ret (to_value (jarg 0 a)).

(** [reject: function(enumerable, callback, context)].  The function calls
    [this.filter]: for the module that is [filter]; for a chain wrapper it
    is [Chainer.prototype.filter]; nothing else has a [filter]. *)
Definition reject (host : Host) (this : receiver) (enumerable : value)
  (callback : jsval unit) (context : value) : M unit value :=
  let negated : jsval unit :=
    lambda 0 (fun _ arguments =>
      x <- call callback context arguments ;;
      ret (VBool (negb (truthy x)))) in
  match this with
  | TheModule => filter host enumerable negated context
  | This (VChainer w) =>
      chained (filter_method host) w [JVal enumerable; negated; JVal context]
  | This _ => throw_type_error
  end.

Definition reject_method (host : Host) : method :=
  fun this a =>
    reject host this (to_value (jarg 0 a)) (jarg 1 a) (to_value (jarg 2 a)).

(** What a call of a function of the module does.  [flatten] is embedded in
    [Store]; [invoke] calls methods of the elements, which values do not
    carry; neither is a chaining method. *)
Definition run (host : Host) (f : member_fn) : option method :=
  match f with
  | F_each => Some (each_method host)
  | F_map => Some (map_method host)
  | F_filter => Some (filter_method host)
  | F_reject => Some (reject_method host)
  | F_detect => Some (detect_method host)
  | F_reduce => Some (reduce_method host)
  | F_tail => Some tail_method
  | F_pluck => Some (pluck_method host)
  | F_some => Some (some_method host)
  | F_all => Some (all_method host)
  | F_include => Some (include_method host)
  | F_chain => Some chain_method
  | F_identity => Some identity_method
  | F_flatten | F_invoke => None
  end.

(** The call [w.name(arguments...)] on the chain wrapper [w]. *)
Definition send (host : Host) (w : nat) (name : string)
  (arguments : list (jsval unit)) : M unit value :=
  if String.eqb name "values" then values w
  else
    match find_member name Chainer_prototype with
    | Some (Some f) =>
        match run host f with
        | Some m => chained m w arguments
        | None => throw_type_error
        end
    | Some None => chained (fun _ _ => throw_type_error) w arguments
    | None => throw_type_error
    end.

End Monad.

Arguments state U : clear implicits.
Arguments M U L A : clear implicits.
Arguments closure U L : clear implicits.
Arguments jsval U L : clear implicits.
Arguments method U : clear implicits.
Arguments mkClosure {U L} _ _ _.
Arguments fn_id {U L} _.
Arguments fn_arity {U L} _.
Arguments fn_body {U L} _ _ _.
Arguments JVal {U L} v.
Arguments JFun {U L} f.
Arguments map_step {U} callback context.
Arguments filter_step {U} callback context pushIndex.
Arguments detect_step {U} callback context.
Arguments reduce_step {U} callback context.
Arguments some_step {U} callback context.
Arguments all_step {U} callback context.
Arguments include_step {U} target.

Notation "x <- m ;; k" := (bind m (fun x => k))
  (at level 61, m at next level, right associativity).
Notation "m ;;; k" := (bind m (fun _ => k))
  (at level 61, right associativity).

End Enumerable.

(** * Arrays in a store: [flatten] *)

Module Store.

Import Enumerable.

(** A value is a primitive, a reference to an object that is not an array,
    or a reference to an array of the store. *)
Inductive sval : Type :=
| SUndef
| SNull
| SBool (b : bool)
| SNum (n : Z)
| SStr (s : string)
| SObj (id : nat)
| SArr (loc : nat).

(** The arrays allocated so far, by location. *)
Definition store : Type := list (list sval).

Definition get (st : store) (l : nat) : list sval := nth l st [].

Definition update (l : nat) (xs : list sval) (st : store) : store :=
  firstn l st ++ xs :: skipn (S l) st.

(** A computation on the store; [None] when the recursion budget is used
    up.  No call made by [flatten] on an array throws, so the handler of
    [each] is never entered and computations carry no exception. *)
Definition SM (A : Type) : Type := store -> option (A * store).

Definition ret {A} (a : A) : SM A := fun st => Some (a, st).

Definition bind {A B} (m : SM A) (k : A -> SM B) : SM B :=
  fun st => match m st with
            | Some (a, st') => k a st'
            | None => None
            end.

(** [[]] and other array allocations. *)
Definition alloc (xs : list sval) : SM nat :=
  fun st => Some (List.length st, st ++ [xs]).

(** [memo.push(value)]: the array at [memo] grows in place. *)
Definition push (memo : nat) (value : sval) : SM unit :=
  fun st => Some (tt, update memo (get st memo ++ [value]) st).

(** [memo.concat(items)] for an array [items]: a new array. *)
Definition concat (memo : nat) (items : nat) : SM nat :=
  fun st => alloc (get st memo ++ get st items) st.

Definition isArray (v : sval) : bool :=
  match v with SArr _ => true | _ => false end.

(** The loop over the indices [k], [k+1], ... ([n] of them) of the array at
    [array], whose elements are read from the store as it is when their turn
    comes; [acc] is the variable the loop body assigns.  The host's methods
    skip an index the array no longer has ([guarded]); the loop of [each]
    reads [undefined] there. *)
Fixpoint loop {A} (guarded : bool) (array : nat) (k n : nat) (acc : A)
  (body : A -> sval -> SM A) : SM A :=
  match n with
  | 0 => ret acc
  | S n' =>
      fun st =>
        match nth_error (get st array) k with
        | Some x => bind (body acc x) (fun acc' => loop guarded array (S k) n' acc' body) st
        | None =>
            if guarded then loop guarded array (S k) n' acc body st
            else bind (body acc SUndef) (fun acc' => loop guarded array (S k) n' acc' body) st
        end
  end.

(** [each] on an array: the host's [forEach] when there is one, else the
    loop over the indices; [acc] stands for the variable that the callback
    assigns. *)
Definition each {A} (host : Host) (enumerable : nat) (acc : A)
  (callback : A -> sval -> SM A) : SM A :=
  fun st =>
    let l := List.length (get st enumerable) in
    loop (has_forEach host) enumerable 0 l acc callback st.

(** [reduce] on an array: the host's [reduce] when there is one (the
    adapter made by [global.bind] calls the callback with the same
    arguments), else [each] with a callback that assigns [memo]. *)
Definition reduce {A} (host : Host) (enumerable : nat) (memo : A)
  (callback : A -> sval -> SM A) : SM A :=
  if has_reduce host then
    fun st =>
      let len := List.length (get st enumerable) in
      loop true enumerable 0 len memo callback st
  else each host enumerable memo callback.

(** [flatten: function(array)], with a budget for the depth of the
    recursion. *)
Fixpoint flatten (fuel : nat) (host : Host) (array : nat) : SM nat :=
  match fuel with
  | 0 => fun _ => None
  | S fuel' =>
      bind (alloc [])
        (fun memo0 =>
           reduce host array memo0
             (fun memo value =>
                match value with
                | SArr inner =>
                    bind (flatten fuel' host inner) (fun flat => concat memo flat)
                | _ => bind (push memo value) (fun _ => ret memo)
                end))
  end.

(** ** What [flatten] is compared with *)

(** The array at [a] and the arrays nested in it are in the store, and the
    nesting is less than [d] deep. *)
Fixpoint nested (d : nat) (st : store) (a : nat) : Prop :=
  match d with
  | 0 => False
  | S d' =>
      a < List.length st /\
      Forall (fun x => match x with
                       | SArr b => nested d' st b
                       | _ => True
                       end) (get st a)
  end.

(** The elements of the array at [a] with every nested array replaced by
    its own elements, to any depth below [d]. *)
Fixpoint flat (d : nat) (st : store) (a : nat) : list sval :=
  match d with
  | 0 => []
  | S d' =>
      flat_map (fun x => match x with
                         | SArr b => flat d' st b
                         | _ => [x]
                         end) (get st a)
  end.

(** What a step of [flatten] keeps true: the store only grows (the arrays
    of [st0] are as they were), and the accumulator is an array allocated
    after [st0], holding [contents]. *)
Definition grows (st0 : store) (contents : list sval)
  (r : option (nat * store)) : Prop :=
  exists acc new,
    r = Some (acc, st0 ++ new) /\
    List.length st0 <= acc < List.length (st0 ++ new) /\
    get (st0 ++ new) acc = contents.

(** The array [[[2, 4], [[6], 8]]] at location 0. *)
Definition two_levels : store :=
  [[SArr 1; SArr 2]; [SNum 2; SNum 4]; [SArr 3; SNum 8]; [SNum 6]].

End Store.

Import Enumerable.
(** * Concrete inputs *)

Definition arr (id : nat) (ns : list Z) : value := VArr id (List.map VNum ns).

(** [function(n) { return n % 2 === 0; }] *)
Definition even_fn : closure unit unit :=
  mkClosure 100 1
    (fun _ args =>
       ret (match arg 0 args with
            | VNum n => VBool (Z.eqb (Z.rem n 2) 0)
            | _ => VBool false
            end)).

Definition even : jsval unit unit := JFun even_fn.

(** [function(n) { return n * 10; }] on numbers. *)
Definition times10 : jsval unit unit :=
  JFun (mkClosure 101 1
    (fun _ args =>
       ret (match arg 0 args with
            | VNum n => VNum (n * 10)
            | _ => VUndef
            end))).

(** [function() { throw e; }] *)
Definition thrower {U L} (e : value) : jsval U L :=
  JFun (mkClosure 102 0 (fun _ _ => throw e)).

(** [function() {}] *)
Definition noop {U L} : jsval U L :=
  JFun (mkClosure 103 0 (fun _ _ => ret VUndef)).

(** A program state in which only [Break] has been allocated. *)
Definition initial {U} (u : U) : state U := mkState 1 [] u.

(** ** What the operations are compared with *)

(** The visits of a traversal of [e], in order: the key (an index or a
    property name) and the value handed to the callback.  [cs] are the
    results of the chain wrappers. *)
Definition entries (cs : list value) (e : value) : list (value * value) :=
  match prop cs e "length" with
  | VNum l => List.map (fun i => (num i, index_prop cs e i)) (indices l)
  | _ =>
      List.map (fun k => (VStr k, prop cs e k))
        (List.filter (has_own_property e) (forin_keys e))
  end.

(** The receiver that a callback of [each] is called with. *)
Definition receiver_of (host : Host) (e context : value) : value :=
  if has_forEach host && isArray e then context
  else if isNumber (prop [] e "length") then e
  else context.

(** A callback that computes its result from its receiver and its three
    arguments, changes nothing and does not throw. *)
Definition pure_fn {U L} (f : value -> value -> value -> value -> value)
  : jsval U L :=
  JFun (mkClosure 104 3
    (fun this args => ret (f this (arg 0 args) (arg 1 args) (arg 2 args)))).

(** The results of such a callback over the visits of a traversal. *)
Definition results_of (f : value -> value -> value -> value -> value)
  (context e : value) (visits : list (value * value)) : list value :=
  List.map (fun kv => f context (snd kv) (fst kv) e) visits.

(** The visits for which such a callback answers a truthy value. *)
Definition selected (f : value -> value -> value -> value -> value)
  (context e : value) (visits : list (value * value)) : list (value * value) :=
  List.filter (fun kv => truthy (f context (snd kv) (fst kv) e)) visits.

(** The arrays [[key, value]], allocated one after the other from [id]. *)
Fixpoint pairs_from (id : nat) (visits : list (value * value)) : list value :=
  match visits with
  | [] => []
  | (k, v) :: rest => VArr id [k; v] :: pairs_from (S id) rest
  end.

(** The first truthy value of a list of callback results; without one, the
    last result ([false] when the callback was never called). *)
Definition first_truthy_or_last (rs : list value) : value :=
  match List.find truthy rs with
  | Some r => r
  | None => List.last rs (VBool false)
  end.

(** The first falsy value of a list of callback results; without one, the
    last result ([true] when the callback was never called). *)
Definition first_falsy_or_last (rs : list value) : value :=
  match List.find (fun r => negb (truthy r)) rs with
  | Some r => r
  | None => List.last rs (VBool true)
  end.

(** A callback that appends its receiver to the user state, a list. *)
Definition recorder {L} : jsval (list value) L :=
  JFun (mkClosure 105 0
    (fun this _ l s =>
       (Ret VUndef, l, mkState (next_id s) (chainers s) (user s ++ [this])))).

(** A function that only looks at its first argument. *)
Definition unary {U L} (f : closure U L) : Prop :=
  forall this args l s,
    fn_body f this args l s = fn_body f VUndef [arg 0 args] l s.

(** The negated predicate: [function() { return !f.apply(this, arguments); }] *)
Definition complement {U L} (f : closure U L) : jsval U L :=
  JFun (mkClosure 107 (fn_arity f)
    (fun this args =>
       x <- fn_body f this args ;;
       ret (VBool (negb (truthy x))))).

(** A function that never throws a value that [each] swallows. *)
Definition quiet {U L} (cb : jsval U L) : Prop :=
  forall this args l s x l' s',
    call cb this args l s = (Throw x, l', s') -> differs_from_Break x = true.

(** The outcome of an operation with the value it returns converted by
    ToBoolean. *)
Definition as_boolean {U} (r : result value * unit * state U)
  : result value * unit * state U :=
  match r with
  | (Ret v, l, s) => (Ret (VBool (truthy v)), l, s)
  | (Throw x, l, s) => (Throw x, l, s)
  end.

(** The visit of an array that goes with an index and the element there. *)
Definition visit (kv : nat * value) : value * value := (num (fst kv), snd kv).

(** Two functions that behave alike. *)
Definition alike {U L} (cb1 cb2 : jsval U L) : Prop :=
  callable cb1 = callable cb2 /\
  forall this args l s, call cb1 this args l s = call cb2 this args l s.

(** [function(x) { return !f(x); }] *)
Definition negation {U L} (f : closure U L) : jsval U L :=
  JFun (mkClosure 106 1
    (fun _ args =>
       x <- fn_body f VUndef [arg 0 args] ;;
       ret (VBool (negb (truthy x))))).








(** * The traversal engine *)

Section EachFacts.

Context {U L : Type}.
Implicit Types (host : Host) (s : state U) (l : L) (cb : jsval U L).

Lemma Break_is_caught : differs_from_Break Break = false.
Proof. reflexivity. Qed.

Lemma each_returns host enumerable cb context l s l' s' :
  traverse host enumerable cb context l s = (Ret tt, l', s') ->
  each host enumerable cb context l s = (Ret enumerable, l', s').
Proof.
  intros H. unfold each, bind, try_catch. rewrite H. reflexivity.
Qed.

(** Whatever the traversal throws that is loosely equal to [Break] is
    swallowed: [each] returns the collection. *)
Lemma each_swallows host enumerable cb context l s e l' s' :
  traverse host enumerable cb context l s = (Throw e, l', s') ->
  differs_from_Break e = false ->
  each host enumerable cb context l s = (Ret enumerable, l', s').
Proof.
  intros H E. unfold each, bind, try_catch, handler. rewrite H, E. reflexivity.
Qed.

(** Whatever else the traversal throws is thrown again, unchanged. *)
Lemma each_rethrows host enumerable cb context l s e l' s' :
  traverse host enumerable cb context l s = (Throw e, l', s') ->
  differs_from_Break e = true ->
  each host enumerable cb context l s = (Throw e, l', s').
Proof.
  intros H E. unfold each, bind, try_catch, handler. rewrite H, E. reflexivity.
Qed.

(** The values that [each] swallows: the references to [Break], and the
    string that [Break] converts to. *)
Lemma differs_from_Break_false e :
  differs_from_Break e = false <->
  e = VStr "[object Object]" \/ exists own inh, e = VObj Break_id own inh.
Proof.
  unfold differs_from_Break, loose_eq_plain_object, Break.
  destruct e; simpl; split; intros H;
    try discriminate;
    try (destruct H as [H | (own' & inh' & H)]; discriminate).
  - apply Bool.negb_false_iff, String.eqb_eq in H. left. now subst.
  - destruct H as [H | (own' & inh' & H)]; [|discriminate].
    injection H as ->. reflexivity.
  - apply Bool.negb_false_iff, Nat.eqb_eq in H. right. subst. eauto.
  - destruct H as [H | (own' & inh' & H)]; [discriminate|].
    injection H as -> _ _. reflexivity.
Qed.

Lemma for_list_skips {A} (p : A -> bool) (body : A -> M U L unit) xs l s :
  List.filter p xs = [] ->
  for_list xs (fun x => if p x then body x else ret tt) l s = (Ret tt, l, s).
Proof.
  induction xs as [|x xs IH]; intros H; simpl in *; [reflexivity|].
  destruct (p x) eqn:E; [discriminate|].
  unfold bind at 1. simpl. apply IH, H.
Qed.

Lemma numeric_length_of_array cs v :
  isArray v = true -> isNumber (prop cs v "length") = true.
Proof. destruct v; simpl; try discriminate. reflexivity. Qed.


(** C6 (amended): for every value other than [null] and [undefined] that
    has no numeric [length] and no own enumerable key (a number, a boolean,
    an empty object, an object that only inherits its keys), [each] calls
    the callback zero times, changes nothing and returns the value. *)
Theorem each_no_op_without_length_and_keys host v cb context l s :
  nullish v = false ->
  isNumber (prop (chainers s) v "length") = false ->
  List.filter (has_own_property v) (forin_keys v) = [] ->
  each host v cb context l s = (Ret v, l, s).
Proof.
  intros N Hlen Hkeys. apply each_returns.
  assert (A : isArray v = false).
  { destruct (isArray v) eqn:E; [|reflexivity].
    rewrite (numeric_length_of_array _ _ E) in Hlen. discriminate. }
  unfold traverse, native_slot, has_native_method, get_prop.
  rewrite N, A.
  assert (R : forall k : bool -> M U L unit,
             bind (if has_forEach host then ret false else ret false) k l s
             = k false l s) by (intros k; destruct (has_forEach host); reflexivity).
  rewrite R. unfold bind at 1. simpl. rewrite Hlen.
  apply for_list_skips, Hkeys.
Qed.

End EachFacts.

(** C6 (witness): the number 5 has neither a length nor keys. *)
Lemma each_no_op_without_length_and_keys_witness :
  each modern (VNum 5) (thrower VNull) VUndef tt (initial tt)
  = (Ret (VNum 5), tt, initial tt).
Proof.
  apply (each_no_op_without_length_and_keys modern (VNum 5) (thrower VNull)
           VUndef tt (initial tt)); reflexivity.
Defined.

(** C6 (counterexample): [each(null, f)] does not return; it throws the
    [TypeError] of the property access. *)
Lemma each_null_throws :
  ~ (exists l s, each modern VNull noop VUndef tt (initial tt) = (Ret VNull, l, s))
  /\ each modern VNull noop VUndef tt (initial tt)
     = (Throw (VError 1 "TypeError"), tt, mkState 2 [] tt).
Proof.
  split; [|reflexivity].
  intros (l & s & H). vm_compute in H. discriminate.
Qed.

(** C1 (failing input): a callback that throws the string
    ["[object Object]"], which is not the [Break] object; [each] swallows
    it and returns the collection, on the host's [forEach] and on the loop
    over the indices alike. *)
Theorem each_swallows_object_Object_string :
  strict_eq (VStr "[object Object]") Break = false /\
  each modern (arr 5 [1]%Z) (thrower (VStr "[object Object]")) VUndef tt (initial tt)
  = (Ret (arr 5 [1]%Z), tt, initial tt) /\
  each legacy (arr 5 [1]%Z) (thrower (VStr "[object Object]")) VUndef tt (initial tt)
  = (Ret (arr 5 [1]%Z), tt, initial tt).
Proof. repeat split. Qed.

(** * The chain wrapper *)

Section ChainFacts.

Context {U : Type}.
Implicit Types (host : Host) (s : state U).

(** Only [reject] looks at its receiver. *)
Lemma run_ignores_receiver host f m this args s :
  run host f = Some m ->
  f <> F_reject ->
  m this args tt s = m TheModule args tt s.
Proof.
  intros R N. destruct f; simpl in R; try discriminate;
    injection R as <-; try reflexivity.
  contradiction.
Qed.

(** A chaining method other than [reject] calls the function of the module
    of the same name with the current results put first. *)
Lemma send_calls_the_module host w name f m args s :
  find_member name Chainer_prototype = Some (Some f) ->
  run host f = Some m ->
  f <> F_reject ->
  send host w name args tt s =
  (results <- values w ;;
   r <- m TheModule (JVal results :: args) ;;
   set_results w r ;;;
   ret (VChainer w)) tt s.
Proof.
  intros F R N. unfold send.
  destruct (String.eqb name "values") eqn:E.
  { apply String.eqb_eq in E. subst. discriminate. }
  rewrite F, R. unfold chained, values, bind, get_prop. simpl.
  rewrite (run_ignores_receiver host f m _ _ s R N). reflexivity.
Qed.

(** A chaining method stores what its function returns and returns the
    wrapper. *)
Lemma chained_stores_and_returns (m : method U) w args s r s' :
  m (This (VChainer w)) (JVal (nth w (chainers s) VUndef) :: args) tt s
  = (Ret r, tt, s') ->
  chained m w args tt s =
  (Ret (VChainer w), tt,
   mkState (next_id s')
     (firstn w (chainers s') ++ r :: skipn (S w) (chainers s')) (user s')).
Proof.
  intros H. unfold chained, bind, get_prop. simpl. rewrite H. reflexivity.
Qed.

End ChainFacts.

(** [chain([1,2,3,4]).filter(even).map(times10).values()] is [[20, 40]]. *)
Lemma chain_filter_map_values host :
  exists id s,
    (chain (arr 5 [1; 2; 3; 4]%Z) ;;;
     send host 0 "filter" [even] ;;;
     send host 0 "map" [times10] ;;;
     send host 0 "values" []) tt (initial tt)
    = (Ret (arr id [20; 40]%Z), tt, s).
Proof.
  destruct host as [[] [] [] r so ev io]; eexists; eexists; reflexivity.
Qed.

(** C4 (failing input): [reject] called on the module returns the elements
    that fail the test; the chaining method [reject] of a wrapper around the
    same array throws a [TypeError] and leaves the results as they were:
    [this.filter] is the chaining method [filter] there, which is handed the
    array as its callback. *)
Theorem chained_reject_throws :
  reject modern TheModule (arr 5 [1; 2; 3; 4]%Z) even VUndef tt (initial tt)
  = (Ret (arr 1 [1; 3]%Z), tt, mkState 2 [] tt) /\
  (chain (arr 5 [1; 2; 3; 4]%Z) ;;; send modern 0 "reject" [even]) tt (initial tt)
  = (Throw (VError 1 "TypeError"), tt, mkState 2 [arr 5 [1; 2; 3; 4]%Z] tt) /\
  (chain (arr 5 [1; 2; 3; 4]%Z) ;;; send legacy 0 "reject" [even]) tt (initial tt)
  = (Throw (VError 2 "TypeError"), tt, mkState 3 [arr 5 [1; 2; 3; 4]%Z] tt).
Proof. repeat split. Qed.

(** Where the inner [filter] has nothing to call, [reject] stores the
    wrapper itself as the results. *)
Lemma chained_reject_stores_the_wrapper :
  (chain (arr 5 []) ;;; send legacy 0 "reject" [even] ;;; send legacy 0 "values" [])
    tt (initial tt)
  = (Ret (VChainer 0), tt, mkState 2 [VChainer 0] tt).
Proof. reflexivity. Qed.

(** ** The names *)

(** C5 (counterexample): the claim lists [select] among the chaining
    methods; it is an alias of [filter] in the module, and a chain wrapper
    has no method [select]. *)
Lemma select_is_not_chainable :
  ~ (forall name,
       In name ["map"; "filter"; "reduce"; "each"; "tail"; "reject"; "pluck";
                "any"; "all"; "detect"; "collect"; "select"; "inject"; "rest";
                "some"; "every"] ->
       chainable name = true).
Proof.
  intros H. specialize (H "select"). simpl in H.
  assert (E : chainable "select" = false) by reflexivity.
  rewrite H in E; [discriminate|]. tauto.
Qed.

(** C5 (amended): the chaining methods are exactly the thirteen names
    map, collect, detect, filter, reduce, each, tail, rest, reject, pluck,
    any, some, all; each of them holds the function that the module has
    under that name, so that collect, rest and any hold the functions of
    map, tail and some; the aliases select, inject and every resolve to the
    functions of filter, reduce and all in the module but are not chaining
    methods, and neither is any other name. *)
Theorem chainable_names :
  (forall name,
     chainable name = true <->
     In name ["map"; "collect"; "detect"; "filter"; "reduce"; "each"; "tail";
              "rest"; "reject"; "pluck"; "any"; "some"; "all"]) /\
  (forall name,
     chainable name = true ->
     exists f, find_member name Chainer_prototype = Some (Some f) /\
               find_member name enumerable_module = Some f) /\
  find_member "collect" Chainer_prototype = find_member "map" Chainer_prototype /\
  find_member "rest" Chainer_prototype = find_member "tail" Chainer_prototype /\
  find_member "any" Chainer_prototype = find_member "some" Chainer_prototype /\
  find_member "select" enumerable_module = find_member "filter" enumerable_module /\
  find_member "inject" enumerable_module = find_member "reduce" enumerable_module /\
  find_member "every" enumerable_module = find_member "all" enumerable_module /\
  find_member "collect" enumerable_module = find_member "map" enumerable_module /\
  find_member "rest" enumerable_module = find_member "tail" enumerable_module /\
  find_member "any" enumerable_module = find_member "some" enumerable_module /\
  chainable "select" = false /\
  chainable "inject" = false /\
  chainable "every" = false.
Proof.
  assert (A : forall name,
     chainable name = true <->
     In name ["map"; "collect"; "detect"; "filter"; "reduce"; "each"; "tail";
              "rest"; "reject"; "pluck"; "any"; "some"; "all"]).
  { intros name. unfold chainable, mem_key. rewrite existsb_exists. simpl.
    split.
    - intros (x & I & E). apply String.eqb_eq in E. subst x. exact I.
    - intros I. exists name. split; [exact I | apply String.eqb_refl]. }
  split; [exact A|]. split; [|repeat split].
  intros name C. apply A in C. simpl in C.
  repeat (destruct C as [<- | C]; [eexists; split; reflexivity|]).
  contradiction.
Qed.

(** * The two paths of an operation *)

(** C2 (failing input): on the array [[1]] with the default callback, the
    host's [some] and [every] answer [true], and the paths through [each]
    answer [1], the value the callback returned; and a callback that throws
    [Break] ends [map] quietly on the path through [each], while the host's
    [map] lets [Break] reach the caller. *)
Theorem native_and_fallback_disagree :
  some modern (arr 5 [1]%Z) (JVal VUndef) VUndef tt (initial tt)
  = (Ret (VBool true), tt, initial tt) /\
  some legacy (arr 5 [1]%Z) (JVal VUndef) VUndef tt (initial tt)
  = (Ret (VNum 1), tt, initial tt) /\
  all modern (arr 5 [1]%Z) (JVal VUndef) VUndef tt (initial tt)
  = (Ret (VBool true), tt, initial tt) /\
  all legacy (arr 5 [1]%Z) (JVal VUndef) VUndef tt (initial tt)
  = (Ret (VNum 1), tt, initial tt) /\
  map modern (arr 5 [1]%Z) (thrower Break) VUndef tt (initial tt)
  = (Throw Break, tt, mkState 2 [] tt) /\
  map legacy (arr 5 [1]%Z) (thrower Break) VUndef tt (initial tt)
  = (Ret (VArr 1 []), tt, mkState 2 [] tt).
Proof. repeat split. Qed.

(** * The visits of a traversal *)

Section Traversal.

Context {U L : Type}.
Implicit Types (host : Host) (s : state U) (l : L).

Lemma bind_Ret {A B} (m : M U L A) (k : A -> M U L B) l s a l' s' :
  m l s = (Ret a, l', s') -> bind m k l s = k a l' s'.
Proof. intros H. unfold bind. rewrite H. reflexivity. Qed.

Lemma bind_Throw {A B} (m : M U L A) (k : A -> M U L B) l s x l' s' :
  m l s = (Throw x, l', s') -> bind m k l s = (Throw x, l', s').
Proof. intros H. unfold bind. rewrite H. reflexivity. Qed.

Lemma try_catch_Ret {A} (m : M U L A) (h : value -> M U L A) l s a l' s' :
  m l s = (Ret a, l', s') -> try_catch m h l s = (Ret a, l', s').
Proof. intros H. unfold try_catch. rewrite H. reflexivity. Qed.

Lemma try_catch_Throw {A} (m : M U L A) (h : value -> M U L A) l s x l' s' :
  m l s = (Throw x, l', s') -> try_catch m h l s = h x l' s'.
Proof. intros H. unfold try_catch. rewrite H. reflexivity. Qed.

Lemma bind_ext {A B} (m : M U L A) (k1 k2 : A -> M U L B) l s :
  (forall a l s, k1 a l s = k2 a l s) -> bind m k1 l s = bind m k2 l s.
Proof.
  intros H. unfold bind. destruct (m l s) as [[[a|e] l'] s']; auto.
Qed.

Lemma bind_ext_l {A B} (m1 m2 : M U L A) (k : A -> M U L B) l s :
  m1 l s = m2 l s -> bind m1 k l s = bind m2 k l s.
Proof. intros H. unfold bind. rewrite H. reflexivity. Qed.

Lemma bind_ret_tt (m : M U L unit) l s : bind m (fun _ => ret tt) l s = m l s.
Proof.
  unfold bind, ret. destruct (m l s) as [[[[]|e] l'] s']; reflexivity.
Qed.

Lemma for_list_ext {A} (b1 b2 : A -> M U L unit) xs l s :
  (forall x l s, In x xs -> b1 x l s = b2 x l s) ->
  for_list xs b1 l s = for_list xs b2 l s.
Proof.
  revert l s. induction xs as [|x xs IH]; intros l s H; simpl; [reflexivity|].
  unfold bind. rewrite (H x l s (or_introl eq_refl)).
  destruct (b2 x l s) as [[[[]|e] l'] s']; [|reflexivity].
  apply IH. intros y l0 s0 I. apply H. now right.
Qed.

Lemma for_list_map {A B} (g : A -> B) (b : B -> M U L unit) xs l s :
  for_list (List.map g xs) b l s = for_list xs (fun x => b (g x)) l s.
Proof.
  revert l s. induction xs as [|x xs IH]; intros l s; simpl; [reflexivity|].
  apply bind_ext. intros _ l' s'. apply IH.
Qed.

Lemma for_list_filter {A} (p : A -> bool) (b : A -> M U L unit) xs l s :
  for_list xs (fun x => if p x then b x else ret tt) l s
  = for_list (List.filter p xs) b l s.
Proof.
  revert l s. induction xs as [|x xs IH]; intros l s; simpl; [reflexivity|].
  destruct (p x); simpl.
  - apply bind_ext. intros _ l' s'. apply IH.
  - unfold bind at 1. simpl. apply IH.
Qed.

(** Only the results of a chain wrapper are read from the state. *)
Lemma prop_cs cs cs' e k :
  (forall w, e <> VChainer w) -> prop cs e k = prop cs' e k.
Proof.
  intros H. destruct e; try reflexivity. exfalso. apply (H id). reflexivity.
Qed.

Lemma numeric_length_not_chainer cs e w :
  isNumber (prop cs e "length") = true -> e <> VChainer w.
Proof. intros H ->. discriminate. Qed.

Lemma index_prop_cs cs cs' e i :
  (forall w, e <> VChainer w) -> index_prop cs e i = index_prop cs' e i.
Proof.
  intros H. destruct e; try reflexivity. exfalso. apply (H id). reflexivity.
Qed.

Lemma length_cs cs cs' e : prop cs e "length" = prop cs' e "length".
Proof. destruct e; reflexivity. Qed.

Lemma indexed_entries cs id xs :
  entries cs (VArr id xs)
  = List.map (fun kv => (num (fst kv), snd kv)) (indexed xs).
Proof.
  unfold entries, indexed, indices. simpl. rewrite Nat2Z.id.
  rewrite List.map_map. reflexivity.
Qed.

(** The loop over the indices and the loop over the keys. *)
Lemma loops_visits e (c : closure U L) context l s :
  nullish e = false ->
  (length <- get_prop e "length" ;;
   if isNumber length then
     for_list (indices (match length with VNum l => l | _ => 0%Z end))
       (fun i =>
          x <- get_index e i ;;
          call (JFun c) e [x; num i; e] ;;; ret tt)
   else
     for_list (forin_keys e)
       (fun key =>
          if has_own_property e key then
            x <- get_prop e key ;;
            call (JFun c) context [x; VStr key; e] ;;; ret tt
          else ret tt)) l s =
  for_list (entries (chainers s) e)
    (fun kv =>
       fn_body c (if isNumber (prop [] e "length") then e else context)
         [snd kv; fst kv; e] ;;; ret tt) l s.
Proof.
  intros N. unfold get_prop. rewrite N. unfold bind at 1. simpl.
  unfold entries. rewrite (length_cs [] (chainers s)).
  destruct (isNumber (prop (chainers s) e "length")) eqn:E.
  - destruct (prop (chainers s) e "length") eqn:P; try discriminate.
    rewrite for_list_map. apply for_list_ext. intros i l0 s0 _.
    unfold get_index. rewrite N. unfold bind at 1. simpl.
    rewrite (index_prop_cs (chainers s0) (chainers s)); [reflexivity|].
    intros w. apply (numeric_length_not_chainer (chainers s)).
    rewrite P. reflexivity.
  - assert (P : match prop (chainers s) e "length" with
                | VNum l0 =>
                    List.map (fun i => (num i, index_prop (chainers s) e i))
                      (indices l0)
                | _ =>
                    List.map (fun k => (VStr k, prop (chainers s) e k))
                      (List.filter (has_own_property e) (forin_keys e))
                end
                = List.map (fun k => (VStr k, prop (chainers s) e k))
                    (List.filter (has_own_property e) (forin_keys e))).
    { destruct (prop (chainers s) e "length"); try reflexivity. discriminate. }
    rewrite P. clear P.
    destruct e; try discriminate;
      try (rewrite for_list_filter, for_list_map; apply for_list_ext;
           intros k l0 s0 _; unfold bind at 1; simpl; reflexivity).
    (* a chain wrapper: its only own key is read first *)
    simpl. unfold bind. simpl.
    destruct (fn_body c context [nth id (chainers s) VUndef; VStr "results"; VChainer id] l s)
      as [[[r|x] l'] s']; reflexivity.
Qed.

(** The traversal of a collection is the sequence of calls of the callback
    on its visits, whichever of the three ways [each] takes. *)
Lemma traverse_visits host e (c : closure U L) context l s :
  nullish e = false ->
  traverse host e (JFun c) context l s =
  for_list (entries (chainers s) e)
    (fun kv =>
       fn_body c (receiver_of host e context) [snd kv; fst kv; e] ;;; ret tt) l s.
Proof.
  intros N. unfold traverse, receiver_of, native_slot, has_native_method.
  rewrite N.
  destruct (has_forEach host) eqn:F; simpl.
  - unfold bind at 1. simpl.
    destruct (isArray e) eqn:A.
    + destruct e; try discriminate. rewrite indexed_entries.
      unfold native_forEach. simpl.
      rewrite for_list_map. simpl.
      set (b := fun kv : nat * value => _).
      unfold bind at 1. unfold bind at 1.
      destruct (for_list (indexed elems) b l s) as [[[[]|x] l'] s']; reflexivity.
    + apply loops_visits, N.
  - unfold bind at 1. simpl. apply loops_visits, N.
Qed.

(** [each] in terms of the visits. *)
Lemma each_visits host e (c : closure U L) context l s :
  nullish e = false ->
  each host e (JFun c) context l s =
  (try_catch
     (for_list (entries (chainers s) e)
        (fun kv =>
           fn_body c (receiver_of host e context) [snd kv; fst kv; e] ;;; ret tt))
     handler ;;;
   ret e) l s.
Proof.
  intros N. unfold each, bind, try_catch.
  rewrite (traverse_visits host e c context l s N). reflexivity.
Qed.

(** The same for any callback that is a function. *)
Lemma each_calls host e (cb : jsval U L) context l s :
  nullish e = false ->
  callable cb = true ->
  each host e cb context l s =
  (try_catch
     (for_list (entries (chainers s) e)
        (fun kv =>
           call cb (receiver_of host e context) [snd kv; fst kv; e] ;;; ret tt))
     handler ;;;
   ret e) l s.
Proof.
  intros N C. destruct cb as [v|c]; [discriminate|].
  apply each_visits, N.
Qed.

(** An operation that runs [each] with its own variables, when the calls on
    the visits all return. *)
Lemma each_with_locals_returns {L0} host e (cb : jsval U L) context
  (l0 : L0) (l l1 : L) s s1 :
  nullish e = false ->
  callable cb = true ->
  for_list (entries (chainers s) e)
    (fun kv =>
       call cb (receiver_of host e context) [snd kv; fst kv; e] ;;; ret tt)
    l s = (Ret tt, l1, s1) ->
  with_locals l (each host e cb context) l0 s = (Ret (e, l1), l0, s1).
Proof.
  intros N C H. unfold with_locals. rewrite (each_calls host e cb context l s N C).
  rewrite (bind_Ret _ _ _ _ tt l1 s1); [reflexivity|].
  apply try_catch_Ret, H.
Qed.

(** The same when one of the calls throws what [each] swallows. *)
Lemma each_with_locals_breaks {L0} host e (cb : jsval U L) context
  (l0 : L0) (l l1 : L) s s1 x :
  nullish e = false ->
  callable cb = true ->
  for_list (entries (chainers s) e)
    (fun kv =>
       call cb (receiver_of host e context) [snd kv; fst kv; e] ;;; ret tt)
    l s = (Throw x, l1, s1) ->
  differs_from_Break x = false ->
  with_locals l (each host e cb context) l0 s = (Ret (e, l1), l0, s1).
Proof.
  intros N C H D. unfold with_locals.
  rewrite (each_calls host e cb context l s N C).
  rewrite (bind_Ret _ _ _ _ tt l1 s1); [reflexivity|].
  rewrite (try_catch_Throw _ _ _ _ _ _ _ H). unfold handler. rewrite D.
  reflexivity.
Qed.

(** The same when one of the calls throws anything else. *)
Lemma each_with_locals_throws {L0} host e (cb : jsval U L) context
  (l0 : L0) (l l1 : L) s s1 x :
  nullish e = false ->
  callable cb = true ->
  for_list (entries (chainers s) e)
    (fun kv =>
       call cb (receiver_of host e context) [snd kv; fst kv; e] ;;; ret tt)
    l s = (Throw x, l1, s1) ->
  differs_from_Break x = true ->
  with_locals l (each host e cb context) l0 s = (Throw x, l0, s1).
Proof.
  intros N C H D. unfold with_locals.
  rewrite (each_calls host e cb context l s N C).
  rewrite (bind_Throw _ _ _ _ x l1 s1); [reflexivity|].
  rewrite (try_catch_Throw _ _ _ _ _ _ _ H). unfold handler. rewrite D.
  reflexivity.
Qed.

End Traversal.

(** * The receiver of the callback *)

Section Receivers.

Context {L : Type}.
Implicit Types (host : Host) (s : state (list value)) (l : L).

Lemma recorded_visits {A} (this : value) (args : A -> list value)
  (xs : list A) l s :
  for_list xs
    (fun x => fn_body (mkClosure (L:=L) 105 0
       (fun this _ l s =>
          (Ret VUndef, l,
           mkState (next_id s) (chainers s) (user s ++ [this])))) this (args x)
       ;;; ret tt) l s
  = (Ret tt, l,
     mkState (next_id s) (chainers s) (user s ++ repeat this (List.length xs))).
Proof.
  revert s. induction xs as [|x xs IH]; intros s; simpl.
  - rewrite app_nil_r. destruct s; reflexivity.
  - unfold bind at 1. simpl. unfold bind at 1. simpl.
    rewrite IH. simpl. rewrite <- app_assoc. reflexivity.
Qed.

(** C7: when [each] does not hand the traversal to the host's [forEach],
    every call of the callback on a collection with a numeric length has the
    collection itself as its receiver, whatever the context is, and every
    call on a keyed mapping has the context as its receiver; the callback
    is called once per index below the length, and once per own enumerable
    key. *)
Theorem each_receivers host e context l s :
  nullish e = false ->
  has_forEach host && isArray e = false ->
  (forall len,
     prop (chainers s) e "length" = VNum len ->
     each host e recorder context l s =
     (Ret e, l,
      mkState (next_id s) (chainers s)
        (user s ++ repeat e (Z.to_nat len)))) /\
  (isNumber (prop (chainers s) e "length") = false ->
   each host e recorder context l s =
   (Ret e, l,
    mkState (next_id s) (chainers s)
      (user s ++
       repeat context
         (List.length (List.filter (has_own_property e) (forin_keys e)))))).
Proof.
  intros N F.
  assert (T : traverse host e recorder context l s =
              (Ret tt, l,
               mkState (next_id s) (chainers s)
                 (user s ++
                  repeat (receiver_of host e context)
                    (List.length (entries (chainers s) e))))).
  { unfold recorder. rewrite (traverse_visits host e _ context l s N).
    apply recorded_visits. }
  unfold receiver_of, entries in T. rewrite F, (length_cs [] (chainers s)) in T.
  split.
  - intros len P. apply each_returns. rewrite T, P.
    unfold isNumber, indices. rewrite length_map, length_seq. reflexivity.
  - intros P. apply each_returns. rewrite T, P.
    destruct (prop (chainers s) e "length"); try discriminate;
      rewrite length_map; reflexivity.
Qed.

End Receivers.

(** C7 (witness): an array-like object of length two and a mapping with two
    own keys, each traversed with the context ["ctx"]. *)
Lemma each_receivers_witness :
  let pair := VObj 7 [("length", VNum 2); ("0", VStr "a"); ("1", VStr "b")] [] in
  let dict := VObj 8 [("x", VNum 1); ("y", VNum 2)] [("z", VNum 3)] in
  each modern pair recorder (VStr "ctx") tt (initial [])
  = (Ret pair, tt, mkState 1 [] [pair; pair]) /\
  each modern dict recorder (VStr "ctx") tt (initial [])
  = (Ret dict, tt, mkState 1 [] [VStr "ctx"; VStr "ctx"]).
Proof.
  intros pair dict. split.
  - apply (proj1 (each_receivers modern pair (VStr "ctx") tt (initial [])
                    eq_refl eq_refl) 2%Z eq_refl).
  - apply (proj2 (each_receivers modern dict (VStr "ctx") tt (initial [])
                    eq_refl eq_refl) eq_refl).
Defined.

(** * [filter] *)

Section FilterFacts.

Context {U : Type}.
Implicit Types (host : Host) (s : state U)
  (f : value -> value -> value -> value -> value).

(** The host's [filter] with a callback that only computes. *)
Lemma filter_loop_pure {L} O f context items A (l : L) s :
  filter_loop O (pure_fn f) context items A l s =
  (Ret (A ++ List.map snd
               (List.filter
                  (fun kv => truthy (f context (snd kv) (num (fst kv)) O))
                  items)), l, s).
Proof.
  revert A. induction items as [|[k v] items IH]; intros A; simpl.
  - rewrite app_nil_r. reflexivity.
  - unfold bind at 1. cbn [pure_fn call fn_body ret arg nth]. rewrite IH.
    cbn [List.filter fst snd].
    destruct (truthy (f context v (num k) O)).
    + cbn [List.map snd]. rewrite <- app_assoc. reflexivity.
    + reflexivity.
Qed.

(** The function that [filter] hands to [each], over the visits, with a
    callback that only computes. *)
Lemma filter_step_pure f context (pushIndex : bool) e this visits acc s :
  for_list visits
    (fun kv =>
       call (filter_step (pure_fn f) context pushIndex) this [snd kv; fst kv; e]
       ;;; ret tt) acc s =
  (Ret tt,
   acc ++ (if pushIndex
           then pairs_from (next_id s) (selected f context e visits)
           else List.map snd (selected f context e visits)),
   mkState
     (next_id s +
      (if pushIndex then List.length (selected f context e visits) else 0))
     (chainers s) (user s)).
Proof.
  revert acc s. induction visits as [|[k v] visits IH]; intros acc s.
  - simpl. destruct pushIndex; simpl; rewrite app_nil_r, Nat.add_0_r;
      destruct s; reflexivity.
  - cbn [for_list]. unfold bind at 1.
    unfold filter_step, lambda, call, lift_fn, pure_fn, fn_body, bind at 1.
    cbn [fst snd arg nth]. unfold bind at 1, lift, ret at 1.
    unfold selected. cbn [List.filter fst snd].
    destruct (truthy (f context v k e)) eqn:T.
    + destruct pushIndex.
      * unfold bind, alloc, get_local, set_local, ret. cbn [next_id chainers user].
        rewrite IH. cbn [next_id chainers user pairs_from List.length].
        rewrite <- app_assoc. cbn [app].
        rewrite Nat.add_succ_r. reflexivity.
      * unfold bind, get_local, set_local, ret.
        rewrite IH. cbn [List.map snd]. rewrite <- app_assoc. reflexivity.
    + unfold bind, ret. rewrite IH. reflexivity.
Qed.

Lemma selected_indexed f context id xs cs :
  List.map snd
    (List.filter
       (fun kv => truthy (f context (snd kv) (num (fst kv)) (VArr id xs)))
       (indexed xs))
  = List.map snd (selected f context (VArr id xs) (entries cs (VArr id xs))).
Proof.
  rewrite indexed_entries. unfold selected.
  rewrite filter_map_swap, List.map_map. reflexivity.
Qed.

(** C3: with a callback that only computes, [filter] on a true array
    returns a new array of the bare values for which the callback is truthy,
    in order, and [filter] on anything else that can be traversed (a keyed
    mapping, and also an array-like object or a string) returns a new array
    with one new pair [[key, value]] for each visit for which the callback
    is truthy, in order. *)
Theorem filter_values_or_pairs host e f context s :
  nullish e = false ->
  filter host e (pure_fn f) context tt s =
  if isArray e then
    (Ret (VArr (next_id s)
            (List.map snd (selected f context e (entries (chainers s) e)))),
     tt, mkState (S (next_id s)) (chainers s) (user s))
  else
    (Ret (VArr (next_id s)
            (pairs_from (S (next_id s))
               (selected f context e (entries (chainers s) e)))),
     tt,
     mkState
       (S (next_id s) +
        List.length (selected f context e (entries (chainers s) e)))
       (chainers s) (user s)).
Proof.
  intros N. unfold filter, native_slot, has_native_method. rewrite N.
  assert (Fallback :
    (id <- alloc ;;
     r <- with_locals []
            (each host e (filter_step (pure_fn f) context (negb (isArray e)))
               VUndef) ;;
     ret (VArr id (snd r))) tt s =
    (Ret (VArr (next_id s)
            (if negb (isArray e)
             then pairs_from (S (next_id s))
                    (selected f context e (entries (chainers s) e))
             else List.map snd (selected f context e (entries (chainers s) e)))),
     tt,
     mkState
       (S (next_id s) +
        (if negb (isArray e)
         then List.length (selected f context e (entries (chainers s) e))
         else 0))
       (chainers s) (user s))).
  { unfold bind at 1, alloc. unfold bind at 1.
    rewrite (each_with_locals_returns host e
               (filter_step (pure_fn f) context (negb (isArray e))) VUndef tt
               [] _ _ _ N eq_refl
               (filter_step_pure f context (negb (isArray e)) e
                  (receiver_of host e VUndef) (entries (chainers s) e) []
                  (mkState (S (next_id s)) (chainers s) (user s)))).
    reflexivity. }
  destruct (has_filter host); cbn [bind].
  - unfold bind at 1, ret at 1.
    destruct (isArray e) eqn:A.
    + destruct e; try discriminate.
      unfold native_filter, callable, pure_fn, bind, alloc.
      cbn [elements].
      assert (R := filter_loop_pure (L:=unit) (VArr id elems) f context
                     (indexed elems) [] tt
                     (mkState (S (next_id s)) (chainers s) (user s))).
      unfold pure_fn in R. rewrite R. cbn [app].
      rewrite (selected_indexed f context id elems (chainers s)). reflexivity.
    + rewrite Fallback. reflexivity.
  - unfold bind at 1, ret at 1. rewrite Fallback.
    destruct (isArray e); cbn [negb]; [rewrite Nat.add_0_r|]; reflexivity.
Qed.

End FilterFacts.

(** C3 (witness): the even values of an array, and the pairs with an even
    value of a mapping. *)
Lemma filter_values_or_pairs_witness :
  let is_even := fun (_ v _ _ : value) =>
    match v with VNum n => VBool (Z.eqb (Z.rem n 2) 0) | _ => VBool false end in
  filter legacy (arr 5 [1; 2; 3; 4]%Z) (pure_fn is_even) VUndef tt (initial tt)
  = (Ret (arr 1 [2; 4]%Z), tt, mkState 2 [] tt) /\
  filter modern (VObj 6 [("a", VNum 1); ("b", VNum 2)] []) (pure_fn is_even)
    VUndef tt (initial tt)
  = (Ret (VArr 1 [VArr 2 [VStr "b"; VNum 2]]), tt, mkState 3 [] tt).
Proof.
  intros is_even. split.
  - apply (filter_values_or_pairs legacy (arr 5 [1; 2; 3; 4]%Z) is_even VUndef
             (initial tt) eq_refl).
  - apply (filter_values_or_pairs modern
             (VObj 6 [("a", VNum 1); ("b", VNum 2)] []) is_even VUndef
             (initial tt) eq_refl).
Defined.

(** * [some] and [all] *)

Section SomeAllFacts.

Context {U : Type}.
Implicit Types (host : Host) (s : state U)
  (f : value -> value -> value -> value -> value).

Lemma last_cons_default (x : value) xs d d' :
  List.last (x :: xs) d = List.last (x :: xs) d'.
Proof.
  revert x. induction xs as [|y xs IH]; intros x; [reflexivity|].
  change (List.last (y :: xs) d = List.last (y :: xs) d'). apply IH.
Qed.

Lemma last_after (x : value) xs d :
  List.last xs x = List.last (x :: xs) d.
Proof.
  destruct xs as [|y xs]; [reflexivity|].
  change (List.last (y :: xs) x = List.last (y :: xs) d).
  apply last_cons_default.
Qed.

(** The function that [some] hands to [each], over the visits, with a
    callback that only computes: it stops at the first truthy result, which
    is then the value of [result]. *)
Lemma some_step_pure f context e this visits acc s :
  for_list visits
    (fun kv =>
       call (some_step (pure_fn f) context) this [snd kv; fst kv; e] ;;; ret tt)
    acc s =
  match List.find truthy (results_of f context e visits) with
  | Some r => (Throw Break, r, s)
  | None => (Ret tt, List.last (results_of f context e visits) acc, s)
  end.
Proof.
  revert acc. induction visits as [|[k v] visits IH]; intros acc.
  - reflexivity.
  - cbn [for_list results_of List.map List.find fst snd].
    fold (results_of f context e visits).
    destruct (truthy (f context v k e)) eqn:T.
    + apply bind_Throw. apply bind_Throw.
      unfold some_step, lambda, call, lift_fn, pure_fn, fn_body.
      cbn [arg nth]. unfold bind, lift, ret, set_local, throw. rewrite T.
      reflexivity.
    + rewrite (bind_Ret _ _ _ _ tt (f context v k e) s).
      * rewrite IH.
        destruct (List.find truthy (results_of f context e visits)); [reflexivity|].
        rewrite (last_after _ _ acc). reflexivity.
      * rewrite (bind_Ret _ _ _ _ VUndef (f context v k e) s); [reflexivity|].
        unfold some_step, lambda, call, lift_fn, pure_fn, fn_body.
        cbn [arg nth]. unfold bind, lift, ret, set_local, throw. rewrite T.
        reflexivity.
Qed.

(** The function that [all] hands to [each]: it stops at the first falsy
    result. *)
Lemma all_step_pure f context e this visits acc s :
  truthy acc = true ->
  for_list visits
    (fun kv =>
       call (all_step (pure_fn f) context) this [snd kv; fst kv; e] ;;; ret tt)
    acc s =
  match List.find (fun r => negb (truthy r)) (results_of f context e visits) with
  | Some r => (Throw Break, r, s)
  | None => (Ret tt, List.last (results_of f context e visits) acc, s)
  end.
Proof.
  revert acc. induction visits as [|[k v] visits IH]; intros acc A.
  - reflexivity.
  - cbn [for_list results_of List.map List.find fst snd].
    fold (results_of f context e visits).
    destruct (truthy (f context v k e)) eqn:T; cbn [negb].
    + rewrite (bind_Ret _ _ _ _ tt (f context v k e) s).
      * rewrite (IH _ T).
        destruct (List.find _ (results_of f context e visits)); [reflexivity|].
        rewrite (last_after _ _ acc). reflexivity.
      * rewrite (bind_Ret _ _ _ _ VUndef (f context v k e) s); [reflexivity|].
        unfold all_step, lambda, call, lift_fn, pure_fn, fn_body.
        cbn [arg nth]. unfold bind, lift, ret, get_local, set_local, throw.
        rewrite A, T. reflexivity.
    + apply bind_Throw. apply bind_Throw.
      unfold all_step, lambda, call, lift_fn, pure_fn, fn_body.
      cbn [arg nth]. unfold bind, lift, ret, get_local, set_local, throw.
      rewrite A, T. reflexivity.
Qed.

Lemma some_loop_boolean {L} O (cb : jsval U L) thisArg items l s r l' s' :
  some_loop O cb thisArg items l s = (Ret r, l', s') -> exists b, r = VBool b.
Proof.
  revert l s. induction items as [|[k v] items IH]; intros l s; simpl.
  - intros H. injection H as <- _ _. eauto.
  - unfold bind.
    destruct (call cb thisArg [v; num k; O] l s) as [[[x|x] l1] s1];
      [|discriminate].
    destruct (truthy x).
    + intros H. injection H as <- _ _. eauto.
    + apply IH.
Qed.

Lemma every_loop_boolean {L} O (cb : jsval U L) thisArg items l s r l' s' :
  every_loop O cb thisArg items l s = (Ret r, l', s') -> exists b, r = VBool b.
Proof.
  revert l s. induction items as [|[k v] items IH]; intros l s; simpl.
  - intros H. injection H as <- _ _. eauto.
  - unfold bind.
    destruct (call cb thisArg [v; num k; O] l s) as [[[x|x] l1] s1];
      [|discriminate].
    destruct (truthy x).
    + apply IH.
    + intros H. injection H as <- _ _. eauto.
Qed.

(** C9: where the host's method is not used (the input is not a true
    array, or the host lacks the method) and the callback only computes,
    [some] returns the first truthy value that the callback produced (and
    the last value it produced when none is truthy), and [all] returns the
    first falsy value that the callback produced, and the last value it
    produced when all are truthy; neither converts the value to a boolean.
    Where the host's method is used, what [some] and [all] return is a
    boolean, whatever the callback does. *)
Theorem some_all_return_callback_values host e f context s :
  nullish e = false ->
  (has_some host && isArray e = false ->
   some host e (pure_fn f) context tt s =
   (Ret (first_truthy_or_last (results_of f context e (entries (chainers s) e))),
    tt, s)) /\
  (has_every host && isArray e = false ->
   all host e (pure_fn f) context tt s =
   (Ret (first_falsy_or_last (results_of f context e (entries (chainers s) e))),
    tt, s)) /\
  (forall cb r l' s',
     has_some host && isArray e = true ->
     some host e cb context tt s = (Ret r, l', s') -> exists b, r = VBool b) /\
  (forall cb r l' s',
     has_every host && isArray e = true ->
     all host e cb context tt s = (Ret r, l', s') -> exists b, r = VBool b).
Proof.
  intros N. repeat split.
  - intros F. unfold some, native_slot, has_native_method. rewrite N.
    cbn [or_identity pure_fn].
    assert (R : forall k : bool -> M U unit value,
              bind (if has_some host then ret (isArray e) else ret false) k tt s
              = k false tt s).
    { intros k. destruct (has_some host); [|reflexivity].
      simpl in F. rewrite F. reflexivity. }
    rewrite R. clear R.
    assert (S := some_step_pure f context e (receiver_of host e VUndef)
                   (entries (chainers s) e) (VBool false) s).
    unfold first_truthy_or_last.
    destruct (List.find truthy _) as [r|].
    + rewrite (bind_Ret _ _ _ _ (e, r) tt s); [reflexivity|].
      apply (each_with_locals_breaks host e
               (some_step (pure_fn f) context) VUndef tt (VBool false) r s s Break
               N eq_refl S eq_refl).
    + rewrite (bind_Ret _ _ _ _
                 (e, List.last (results_of f context e (entries (chainers s) e))
                       (VBool false)) tt s); [reflexivity|].
      apply (each_with_locals_returns host e
               (some_step (pure_fn f) context) VUndef tt (VBool false) _ s s
               N eq_refl S).
  - intros F. unfold all, native_slot, has_native_method. rewrite N.
    cbn [or_identity pure_fn].
    assert (R : forall k : bool -> M U unit value,
              bind (if has_every host then ret (isArray e) else ret false) k tt s
              = k false tt s).
    { intros k. destruct (has_every host); [|reflexivity].
      simpl in F. rewrite F. reflexivity. }
    rewrite R. clear R.
    assert (S := all_step_pure f context e (receiver_of host e VUndef)
                   (entries (chainers s) e) (VBool true) s eq_refl).
    unfold first_falsy_or_last.
    destruct (List.find _ _) as [r|].
    + rewrite (bind_Ret _ _ _ _ (e, r) tt s); [reflexivity|].
      apply (each_with_locals_breaks host e
               (all_step (pure_fn f) context) VUndef tt (VBool true) r s s Break
               N eq_refl S eq_refl).
    + rewrite (bind_Ret _ _ _ _
                 (e, List.last (results_of f context e (entries (chainers s) e))
                       (VBool true)) tt s); [reflexivity|].
      apply (each_with_locals_returns host e
               (all_step (pure_fn f) context) VUndef tt (VBool true) _ s s
               N eq_refl S).
  - intros cb r l' s' F. apply andb_prop in F. destruct F as [F A].
    unfold some, native_slot, has_native_method. rewrite N, F, A.
    unfold bind at 1, ret at 1. unfold native_some.
    destruct (callable (or_identity cb)).
    + apply some_loop_boolean.
    + unfold throw_type_error, bind, alloc, throw. discriminate.
  - intros cb r l' s' F. apply andb_prop in F. destruct F as [F A].
    unfold all, native_slot, has_native_method. rewrite N, F, A.
    unfold bind at 1, ret at 1. unfold native_every.
    destruct (callable (or_identity cb)).
    + apply every_loop_boolean.
    + unfold throw_type_error, bind, alloc, throw. discriminate.
Qed.

End SomeAllFacts.

(** C9 (witness): on an array-like object holding 0 and 5 with the callback
    that returns the element, [some] returns 5 and [all] returns 0. *)
Lemma some_all_return_callback_values_witness :
  let e := VObj 7 [("length", VNum 2); ("0", VNum 0); ("1", VNum 5)] [] in
  let itself := fun (_ v _ _ : value) => v in
  some modern e (pure_fn itself) VUndef tt (initial tt)
  = (Ret (VNum 5), tt, initial tt) /\
  all modern e (pure_fn itself) VUndef tt (initial tt)
  = (Ret (VNum 0), tt, initial tt).
Proof.
  intros e itself.
  destruct (some_all_return_callback_values modern e itself VUndef (initial tt)
              eq_refl) as (S & A & _).
  split; [apply (S eq_refl) | apply (A eq_refl)].
Defined.

(** * [reject] *)

Section RejectFacts.

Context {U : Type}.
Implicit Types (host : Host) (s : state U).

Lemma traverse_alike {L} host e (cb1 cb2 : jsval U L) context l s :
  alike cb1 cb2 ->
  traverse host e cb1 context l s = traverse host e cb2 context l s.
Proof.
  intros [C H]. unfold traverse. apply bind_ext. intros native l0 s0.
  destruct native.
  - apply bind_ext_l. unfold native_forEach. rewrite C.
    destruct (callable cb2); [|reflexivity].
    apply bind_ext_l. apply for_list_ext. intros kv l1 s1 _.
    apply bind_ext_l, H.
  - apply bind_ext. intros length l1 s1.
    destruct (isNumber length).
    + apply for_list_ext. intros i l2 s2 _.
      apply bind_ext. intros x l3 s3. apply bind_ext_l, H.
    + apply for_list_ext. intros k l2 s2 _.
      destruct (has_own_property e k); [|reflexivity].
      apply bind_ext. intros x l3 s3. apply bind_ext_l, H.
Qed.

Lemma each_alike {L} host e (cb1 cb2 : jsval U L) context l s :
  alike cb1 cb2 ->
  each host e cb1 context l s = each host e cb2 context l s.
Proof.
  intros A. unfold each. apply bind_ext_l. unfold try_catch.
  rewrite (traverse_alike host e cb1 cb2 context l s A). reflexivity.
Qed.

Lemma call_lift_fn {L} (cb : jsval U unit) this args (l : L) s :
  call (lift_fn cb) this args l s = lift (call cb this args) l s.
Proof. destruct cb; reflexivity. Qed.

Lemma filter_loop_alike {L} O (cb1 cb2 : jsval U L) c1 c2 items A l s :
  (forall args l s, call cb1 c1 args l s = call cb2 c2 args l s) ->
  filter_loop O cb1 c1 items A l s = filter_loop O cb2 c2 items A l s.
Proof.
  intros H. revert A l s.
  induction items as [|[k v] items IH]; intros A l s; simpl; [reflexivity|].
  unfold bind. rewrite H.
  destruct (call cb2 c2 [v; num k; O] l s) as [[[x|x] l1] s1]; [|reflexivity].
  apply IH.
Qed.

(** [filter] only depends on what calling the callback with the context
    does. *)
Lemma filter_alike host e (cb1 cb2 : jsval U unit) c1 c2 l s :
  callable cb1 = callable cb2 ->
  (forall args l s, call cb1 c1 args l s = call cb2 c2 args l s) ->
  filter host e cb1 c1 l s = filter host e cb2 c2 l s.
Proof.
  intros C H. unfold filter. apply bind_ext. intros native l0 s0.
  destruct native.
  - unfold native_filter. rewrite C. destruct (callable cb2); [|reflexivity].
    apply bind_ext. intros id l1 s1. apply bind_ext_l.
    apply filter_loop_alike, H.
  - apply bind_ext. intros id l1 s1. apply bind_ext_l.
    unfold with_locals.
    rewrite (each_alike host e
               (filter_step cb1 c1 (negb (isArray e)))
               (filter_step cb2 c2 (negb (isArray e))) VUndef [] s1);
      [reflexivity|].
    split; [reflexivity|].
    intros this args l2 s2. unfold filter_step, lambda, call at 1 3, fn_body.
    apply bind_ext_l. rewrite !call_lift_fn. unfold lift. rewrite H.
    reflexivity.
Qed.

(** C8: for every collection (an array, a mapping, anything else),
    [reject] called on the module is [filter] with the negated predicate:
    the same result (bare values for an array, pairs [[key, value]]
    otherwise), the same failure, the same effects.  The negated predicate
    is the one that is handed the receiver and the arguments of [filter]'s
    callback; for a predicate that only looks at the element, it is
    [function(x) { return !f(x); }]. *)
Theorem reject_is_filter_of_negation host e (f : closure U unit) context s :
  reject host TheModule e (JFun f) context tt s
  = filter host e (complement f) context tt s /\
  (unary f ->
   forall context',
     reject host TheModule e (JFun f) context tt s
     = filter host e (negation f) context' tt s).
Proof.
  split.
  - unfold reject. apply filter_alike; [reflexivity|].
    intros args l s0. reflexivity.
  - intros Un context'. unfold reject. apply filter_alike; [reflexivity|].
    intros args l s0. unfold lambda, negation, call, fn_body.
    apply bind_ext_l. apply Un.
Qed.

End RejectFacts.

(** C8 (witness): the odd numbers of an array, and the pairs with an odd
    value of a mapping. *)
Lemma reject_is_filter_of_negation_witness :
  let dict := VObj 6 [("a", VNum 1); ("b", VNum 2)] [] in
  reject modern TheModule (arr 5 [1; 2; 3; 4]%Z) even VUndef tt (initial tt)
  = filter modern (arr 5 [1; 2; 3; 4]%Z) (negation even_fn) VUndef tt (initial tt)
  /\ reject modern TheModule dict even VUndef tt (initial tt)
     = filter modern dict (negation even_fn) VUndef tt (initial tt)
  /\ filter modern dict (negation even_fn) VUndef tt (initial tt)
     = (Ret (VArr 1 [VArr 2 [VStr "a"; VNum 1]]), tt, mkState 3 [] tt).
Proof.
  intros dict. split; [|split].
  - apply (proj2 (reject_is_filter_of_negation modern (arr 5 [1; 2; 3; 4]%Z)
                    even_fn VUndef (initial tt))).
    intros this args l s. reflexivity.
  - apply (proj2 (reject_is_filter_of_negation modern dict even_fn VUndef
                    (initial tt))).
    intros this args l s. reflexivity.
  - reflexivity.
Defined.

(** * [flatten] leaves its input alone *)

Module StoreFacts.

Import Store.

Lemma get_old (st new : store) l :
  l < List.length st -> get (st ++ new) l = get st l.
Proof. intros H. unfold get. apply app_nth1, H. Qed.

Lemma get_new (st new : store) l :
  List.length st <= l -> get (st ++ new) l = get new (l - List.length st).
Proof. intros H. unfold get. apply app_nth2, H. Qed.

(** An update of an array allocated later leaves the earlier ones alone. *)
Lemma update_new (st new : store) l xs :
  List.length st <= l ->
  update l xs (st ++ new) = st ++ update (l - List.length st) xs new.
Proof.
  intros H. unfold update.
  rewrite firstn_app, skipn_app.
  rewrite firstn_all2 by lia. rewrite skipn_all2 by lia.
  rewrite <- app_assoc. cbn [app].
  replace (S l - List.length st) with (S (l - List.length st)) by lia.
  reflexivity.
Qed.

Lemma length_update l xs (st : store) :
  l < List.length st -> List.length (update l xs st) = List.length st.
Proof.
  intros H. unfold update.
  rewrite length_app. cbn [List.length]. rewrite length_firstn, length_skipn. lia.
Qed.

Lemma get_update l xs (st : store) :
  l < List.length st -> get (update l xs st) l = xs.
Proof.
  intros H. unfold get, update.
  rewrite app_nth2; rewrite length_firstn; [|lia].
  replace (l - Nat.min l (List.length st)) with 0 by lia. reflexivity.
Qed.

Lemma nested_extends d (st new : store) a :
  nested d st a -> nested d (st ++ new) a.
Proof.
  revert a. induction d as [|d IH]; intros a; [exact (fun H => H)|].
  cbn [nested]. intros [L F]. split.
  - rewrite length_app. lia.
  - rewrite get_old by exact L.
    eapply Forall_impl; [|exact F].
    intros [] H; auto.
Qed.

Lemma nested_more d d' (st : store) a :
  d <= d' -> nested d st a -> nested d' st a.
Proof.
  revert d' a. induction d as [|d IH]; intros d' a Le; [intros []|].
  destruct d' as [|d']; [lia|].
  cbn [nested]. intros [L F]. split; [exact L|].
  eapply Forall_impl; [|exact F].
  intros [] H; auto. apply IH; [lia|exact H].
Qed.

Lemma flat_extends d (st new : store) a :
  nested d st a -> flat d (st ++ new) a = flat d st a.
Proof.
  revert a. induction d as [|d IH]; intros a; [reflexivity|].
  cbn [nested flat]. intros [L F]. rewrite get_old by exact L.
  induction F as [|x xs Hx F IHF]; [reflexivity|].
  cbn [flat_map]. rewrite IHF. f_equal.
  destruct x; try reflexivity. apply IH, Hx.
Qed.

Lemma skipn_nth_error {A} (xs : list A) k x :
  nth_error xs k = Some x -> skipn k xs = x :: skipn (S k) xs.
Proof.
  revert k. induction xs as [|y xs IH]; intros [|k] H; try discriminate.
  - injection H as ->. reflexivity.
  - cbn [skipn]. apply IH, H.
Qed.

(** The loops over an array that the body leaves alone: the accumulator
    ends with what the body adds for each element, in order. *)
Lemma loop_grows (guarded : bool) (st0 : store) (a : nat)
  (body : nat -> sval -> SM nat) (adds : sval -> list sval) :
  a < List.length st0 ->
  (forall acc x new,
     In x (get st0 a) ->
     List.length st0 <= acc < List.length (st0 ++ new) ->
     grows st0 (get (st0 ++ new) acc ++ adds x) (body acc x (st0 ++ new))) ->
  forall n k acc new,
    k + n = List.length (get st0 a) ->
    List.length st0 <= acc < List.length (st0 ++ new) ->
    grows st0
      (get (st0 ++ new) acc ++ flat_map adds (skipn k (get st0 a)))
      (loop guarded a k n acc body (st0 ++ new)).
Proof.
  intros La Hbody. induction n as [|n IH]; intros k acc new Hk Hacc.
  - exists acc, new. split; [reflexivity|]. split; [exact Hacc|].
    rewrite skipn_all2 by lia. cbn [flat_map]. rewrite app_nil_r. reflexivity.
  - cbn [loop]. rewrite (get_old st0 new a La).
    destruct (nth_error (get st0 a) k) as [x|] eqn:E.
    + destruct (Hbody acc x new (nth_error_In _ _ E) Hacc)
        as (acc' & new' & R & Hacc' & C).
      unfold bind. rewrite R.
      rewrite (skipn_nth_error _ _ _ E). cbn [flat_map].
      rewrite app_assoc, <- C. apply IH; [lia|exact Hacc'].
    + apply nth_error_None in E. lia.
Qed.

(** C10: for every array of the store whose nesting is finite, [flatten]
    returns; what it returns is an array allocated during the call, so it
    is not the input nor any array that existed before; every array that
    existed before the call, the input and the arrays nested in it among
    them, holds the same elements after the call as before; and the new
    array holds the elements of the input with the nested arrays replaced by
    their elements. *)
Theorem flatten_returns_fresh_array host d fuel (st : store) a :
  nested d st a ->
  d <= fuel ->
  exists r st',
    flatten fuel host a st = Some (r, st') /\
    List.length st <= r < List.length st' /\
    r <> a /\
    (forall l, l < List.length st -> get st' l = get st l) /\
    get st' r = flat d st a.
Proof.
  intros Hn Hf.
  assert (G : grows st (flat d st a) (flatten fuel host a st)).
  { revert d st a Hn Hf.
    induction fuel as [|fuel IH]; intros d st a Hn Hf.
    { destruct d; [destruct Hn | lia]. }
    destruct d as [|d]; [destruct Hn|].
    cbn [nested] in Hn. destruct Hn as [La F].
    cbn [flatten flat]. unfold bind at 1, alloc.
    set (body := fun (memo : nat) (value : sval) => _).
    set (adds := fun x : sval => match x with
                                 | SArr b => flat d st b
                                 | _ => [x]
                                 end).
    assert (Hbody : forall acc x new,
              In x (get st a) ->
              List.length st <= acc < List.length (st ++ new) ->
              grows st (get (st ++ new) acc ++ adds x) (body acc x (st ++ new))).
    { intros acc x new I Hacc.
      rewrite Forall_forall in F. specialize (F x I).
      destruct x as [| |b|n|t|o|inner]; subst body adds; cbv beta iota;
        try (unfold bind, push, ret;
             rewrite update_new by lia;
             eexists; eexists; split; [reflexivity|];
             rewrite <- update_new by lia;
             rewrite length_update by lia;
             split; [lia|];
             rewrite get_update by lia; reflexivity).
      destruct (IH d (st ++ new) inner (nested_extends _ _ _ _ F) ltac:(lia))
        as (r & new2 & R & Hr & C).
      unfold bind. rewrite R. unfold concat, alloc.
      exists (List.length ((st ++ new) ++ new2)),
             (new ++ new2 ++ [get ((st ++ new) ++ new2) acc
                              ++ get ((st ++ new) ++ new2) r]).
      split; [rewrite !app_assoc; reflexivity|].
      split.
      - rewrite !length_app in *. cbn [List.length]. lia.
      - rewrite !app_assoc. unfold get at 1.
        rewrite app_nth2 by lia. rewrite Nat.sub_diag. cbn [nth].
        rewrite C, flat_extends by exact F.
        rewrite (get_old (st ++ new) new2) by lia. reflexivity. }
    assert (Hloop : forall guarded,
              grows st (flat_map adds (get st a))
                (loop guarded a 0 (List.length (get (st ++ [[]]) a))
                   (List.length st) body (st ++ [[]]))).
    { intros guarded. rewrite (get_old st [[]] a La).
      assert (Hacc : List.length st <= List.length st
                     < List.length (st ++ [[]]))
        by (rewrite length_app; cbn [List.length]; lia).
      assert (R := loop_grows guarded st a body adds La Hbody
                     (List.length (get st a)) 0 (List.length st) [[]]
                     eq_refl Hacc).
      rewrite get_new in R by lia. rewrite Nat.sub_diag in R.
      exact R. }
    unfold reduce, each.
    destruct (has_reduce host); apply Hloop. }
  destruct G as (r & new & R & Hr & C).
  exists r, (st ++ new). split; [exact R|]. split; [exact Hr|].
  assert (La : a < List.length st) by (destruct d; [destruct Hn | apply Hn]).
  split; [lia|]. split; [|exact C].
  intros l Hl. apply get_old, Hl.
Qed.

(** C10 (witness): [flatten([[2, 4], [[6], 8]])]. *)
Lemma flatten_returns_fresh_array_witness :
  exists r st',
    flatten 3 modern 0 two_levels = Some (r, st') /\
    List.length two_levels <= r < List.length st' /\
    r <> 0 /\
    (forall l, l < List.length two_levels -> get st' l = get two_levels l) /\
    get st' r = [SNum 2; SNum 4; SNum 6; SNum 8].
Proof.
  apply (flatten_returns_fresh_array modern 3 3 two_levels 0).
  - cbn. repeat (split || constructor || lia).
  - lia.
Defined.

(** A cyclic array has no finite nesting, and [flatten] does not return on
    it within any budget. *)
Lemma flatten_cyclic host fuel :
  flatten fuel host 0 [[SArr 0]] = None.
Proof.
  assert (G : forall st, get st 0 = [SArr 0] -> flatten fuel host 0 st = None).
  { induction fuel as [|fuel IH]; intros st H; [reflexivity|].
    cbn [flatten]. unfold bind at 1, alloc.
    assert (H1 : get (st ++ [[]]) 0 = [SArr 0]).
    { destruct st as [|x st]; [discriminate|]. exact H. }
    assert (E : forall guarded (body : nat -> sval -> SM nat) acc,
              body acc (SArr 0) (st ++ [[]]) = None ->
              loop guarded 0 0 (List.length (get (st ++ [[]]) 0)) acc body
                (st ++ [[]]) = None).
    { intros guarded body acc Hb. rewrite H1. cbn [List.length loop].
      rewrite H1. cbn [nth_error]. unfold bind. rewrite Hb. reflexivity. }
    unfold reduce, each.
    destruct (has_reduce host); apply E; unfold bind;
      rewrite (IH _ H1); reflexivity. }
  apply G. reflexivity.
Qed.

End StoreFacts.

(** * Where the two paths of an operation agree *)

Section Paths.

Context {U : Type}.
Implicit Types (host : Host) (s : state U) (cb : jsval U unit).

(** One call of the function that [map] hands to [each]. *)
Lemma map_step_Ret cb context this v k O acc s x u s1 :
  call cb context [v; k; O] tt s = (Ret x, u, s1) ->
  (call (map_step cb context) this [v; k; O] ;;; ret tt) acc s
  = (Ret tt, acc ++ [x], s1).
Proof.
  intros E. unfold map_step, lambda, call at 1, fn_body. cbn [arg nth].
  unfold bind. rewrite call_lift_fn. unfold lift. rewrite E. reflexivity.
Qed.

Lemma map_step_Throw cb context this v k O acc s x u s1 :
  call cb context [v; k; O] tt s = (Throw x, u, s1) ->
  (call (map_step cb context) this [v; k; O] ;;; ret tt) acc s
  = (Throw x, acc, s1).
Proof.
  intros E. unfold map_step, lambda, call at 1, fn_body. cbn [arg nth].
  unfold bind. rewrite call_lift_fn. unfold lift. rewrite E. reflexivity.
Qed.

(** The loop of the host's [map] and the function that [map] hands to
    [each] do the same calls and collect the same results. *)
Lemma map_step_loop cb context O this items :
  quiet cb ->
  forall acc s,
    (forall A u s',
       map_loop O cb context items acc tt s = (Ret A, u, s') ->
       for_list (List.map visit items)
         (fun kv =>
            call (map_step cb context) this [snd kv; fst kv; O] ;;; ret tt)
         acc s = (Ret tt, A, s')) /\
    (forall x u s',
       map_loop O cb context items acc tt s = (Throw x, u, s') ->
       differs_from_Break x = true /\
       exists acc',
         for_list (List.map visit items)
           (fun kv =>
              call (map_step cb context) this [snd kv; fst kv; O] ;;; ret tt)
           acc s = (Throw x, acc', s')).
Proof.
  intros Q. induction items as [|[k v] items IH]; intros acc s.
  - split; intros ? ? ? H; [|discriminate].
    injection H as <- _ <-. reflexivity.
  - cbn [map_loop List.map for_list visit fst snd].
    destruct (call cb context [v; num k; O] tt s) as [[[x|x] u] s1] eqn:E.
    + rewrite (bind_Ret _ _ _ _ _ _ _ E).
      rewrite (bind_Ret _ _ _ _ _ _ _ (map_step_Ret _ _ this _ _ _ acc _ _ _ _ E)).
      destruct u. apply IH.
    + rewrite (bind_Throw _ _ _ _ _ _ _ E).
      rewrite (bind_Throw _ _ _ _ _ _ _ (map_step_Throw _ _ this _ _ _ acc _ _ _ _ E)).
      split; intros ? ? ? H; [discriminate|].
      injection H as <- _ <-. split; [exact (Q _ _ _ _ _ _ _ E) | eauto].
Qed.

(** On a true array and with a callback that is a function and does not
    throw what [each] swallows, [map] does on every host what the host's
    [map] does. *)
Lemma map_on_any_host host id xs (c : closure U unit) context s :
  quiet (JFun c) ->
  map host (VArr id xs) (JFun c) context tt s
  = native_map (VArr id xs) (JFun c) context tt s.
Proof.
  intros Q. unfold map, native_slot, has_native_method. cbn [nullish isArray].
  destruct (has_map host); [reflexivity|].
  rewrite (bind_Ret _ _ _ _ false tt s) by reflexivity.
  unfold native_map. cbn [callable elements].
  apply bind_ext. intros id0 [] s1.
  destruct (map_step_loop (JFun c) context (VArr id xs)
              (receiver_of host (VArr id xs) VUndef) (indexed xs) Q [] s1)
    as [HR HT].
  destruct (map_loop (VArr id xs) (JFun c) context (indexed xs) [] tt s1)
    as [[[A|x] u] s'] eqn:E.
  - rewrite (bind_Ret (with_locals _ _) _ _ _ (VArr id xs, A) tt s').
    + rewrite (bind_Ret _ _ _ _ A u s' E). destruct u; reflexivity.
    + apply each_with_locals_returns; [reflexivity|reflexivity|].
      rewrite indexed_entries. apply (HR A u s' eq_refl).
  - destruct (HT x u s' eq_refl) as (D & acc' & H).
    rewrite (bind_Throw (with_locals _ _) _ _ _ x tt s').
    + rewrite (bind_Throw _ _ _ _ x u s' E). destruct u; reflexivity.
    + apply (each_with_locals_throws host (VArr id xs) _ VUndef tt [] acc');
        [reflexivity|reflexivity| |exact D].
      rewrite indexed_entries. exact H.
Qed.

(** One call of the function that [filter] hands to [each] for an array. *)
Lemma filter_step_Ret cb context this v k O acc s x u s1 :
  call cb context [v; k; O] tt s = (Ret x, u, s1) ->
  (call (filter_step cb context false) this [v; k; O] ;;; ret tt) acc s
  = (Ret tt, if truthy x then acc ++ [v] else acc, s1).
Proof.
  intros E. unfold filter_step, lambda, call at 1, fn_body. cbn [arg nth].
  unfold bind. rewrite call_lift_fn. unfold lift. rewrite E.
  destruct (truthy x); reflexivity.
Qed.

Lemma filter_step_Throw cb context this v k O acc s x u s1 :
  call cb context [v; k; O] tt s = (Throw x, u, s1) ->
  (call (filter_step cb context false) this [v; k; O] ;;; ret tt) acc s
  = (Throw x, acc, s1).
Proof.
  intros E. unfold filter_step, lambda, call at 1, fn_body. cbn [arg nth].
  unfold bind. rewrite call_lift_fn. unfold lift. rewrite E. reflexivity.
Qed.

Lemma filter_step_loop cb context O this items :
  quiet cb ->
  forall acc s,
    (forall A u s',
       filter_loop O cb context items acc tt s = (Ret A, u, s') ->
       for_list (List.map visit items)
         (fun kv =>
            call (filter_step cb context false) this [snd kv; fst kv; O]
            ;;; ret tt)
         acc s = (Ret tt, A, s')) /\
    (forall x u s',
       filter_loop O cb context items acc tt s = (Throw x, u, s') ->
       differs_from_Break x = true /\
       exists acc',
         for_list (List.map visit items)
           (fun kv =>
              call (filter_step cb context false) this [snd kv; fst kv; O]
              ;;; ret tt)
           acc s = (Throw x, acc', s')).
Proof.
  intros Q. induction items as [|[k v] items IH]; intros acc s.
  - split; intros ? ? ? H; [|discriminate].
    injection H as <- _ <-. reflexivity.
  - cbn [filter_loop List.map for_list visit fst snd].
    destruct (call cb context [v; num k; O] tt s) as [[[x|x] u] s1] eqn:E.
    + rewrite (bind_Ret _ _ _ _ _ _ _ E).
      rewrite (bind_Ret _ _ _ _ _ _ _
                 (filter_step_Ret _ _ this _ _ _ acc _ _ _ _ E)).
      destruct u. apply IH.
    + rewrite (bind_Throw _ _ _ _ _ _ _ E).
      rewrite (bind_Throw _ _ _ _ _ _ _
                 (filter_step_Throw _ _ this _ _ _ acc _ _ _ _ E)).
      split; intros ? ? ? H; [discriminate|].
      injection H as <- _ <-. split; [exact (Q _ _ _ _ _ _ _ E) | eauto].
Qed.

Lemma filter_on_any_host host id xs (c : closure U unit) context s :
  quiet (JFun c) ->
  filter host (VArr id xs) (JFun c) context tt s
  = native_filter (VArr id xs) (JFun c) context tt s.
Proof.
  intros Q. unfold filter, native_slot, has_native_method. cbn [nullish isArray].
  destruct (has_filter host); [reflexivity|].
  rewrite (bind_Ret _ _ _ _ false tt s) by reflexivity.
  unfold native_filter. cbn [callable elements negb].
  apply bind_ext. intros id0 [] s1.
  destruct (filter_step_loop (JFun c) context (VArr id xs)
              (receiver_of host (VArr id xs) VUndef) (indexed xs) Q [] s1)
    as [HR HT].
  destruct (filter_loop (VArr id xs) (JFun c) context (indexed xs) [] tt s1)
    as [[[A|x] u] s'] eqn:E.
  - rewrite (bind_Ret (with_locals _ _) _ _ _ (VArr id xs, A) tt s').
    + rewrite (bind_Ret _ _ _ _ A u s' E). destruct u; reflexivity.
    + apply each_with_locals_returns; [reflexivity|reflexivity|].
      rewrite indexed_entries. apply (HR A u s' eq_refl).
  - destruct (HT x u s' eq_refl) as (D & acc' & H).
    rewrite (bind_Throw (with_locals _ _) _ _ _ x tt s').
    + rewrite (bind_Throw _ _ _ _ x u s' E). destruct u; reflexivity.
    + apply (each_with_locals_throws host (VArr id xs) _ VUndef tt [] acc');
        [reflexivity|reflexivity| |exact D].
      rewrite indexed_entries. exact H.
Qed.

(** One call of the function that [reduce] hands to [each]. *)
Lemma reduce_step_Ret cb context this v k O memo s x u s1 :
  call cb context [memo; v; k; O] tt s = (Ret x, u, s1) ->
  (call (reduce_step cb context) this [v; k; O] ;;; ret tt) memo s
  = (Ret tt, x, s1).
Proof.
  intros E. unfold reduce_step, lambda, call at 1, fn_body. cbn [arg nth].
  unfold bind, get_local. rewrite call_lift_fn. unfold lift. rewrite E.
  reflexivity.
Qed.

Lemma reduce_step_Throw cb context this v k O memo s x u s1 :
  call cb context [memo; v; k; O] tt s = (Throw x, u, s1) ->
  (call (reduce_step cb context) this [v; k; O] ;;; ret tt) memo s
  = (Throw x, memo, s1).
Proof.
  intros E. unfold reduce_step, lambda, call at 1, fn_body. cbn [arg nth].
  unfold bind, get_local. rewrite call_lift_fn. unfold lift. rewrite E.
  reflexivity.
Qed.

Lemma reduce_step_loop cb context O this items :
  quiet cb ->
  forall memo s,
    (forall r u s',
       reduce_loop O (bind_context cb context) items memo tt s = (Ret r, u, s') ->
       for_list (List.map visit items)
         (fun kv =>
            call (reduce_step cb context) this [snd kv; fst kv; O] ;;; ret tt)
         memo s = (Ret tt, r, s')) /\
    (forall x u s',
       reduce_loop O (bind_context cb context) items memo tt s
       = (Throw x, u, s') ->
       differs_from_Break x = true /\
       exists memo',
         for_list (List.map visit items)
           (fun kv =>
              call (reduce_step cb context) this [snd kv; fst kv; O] ;;; ret tt)
           memo s = (Throw x, memo', s')).
Proof.
  intros Q. induction items as [|[k v] items IH]; intros memo s.
  - split; intros ? ? ? H; [|discriminate].
    injection H as <- _ <-. reflexivity.
  - cbn [reduce_loop List.map for_list visit fst snd].
    change (call (bind_context cb context) VUndef [memo; v; num k; O])
      with (call cb context [memo; v; num k; O]).
    destruct (call cb context [memo; v; num k; O] tt s) as [[[x|x] u] s1] eqn:E.
    + rewrite (bind_Ret _ _ _ _ _ _ _ E).
      rewrite (bind_Ret _ _ _ _ _ _ _
                 (reduce_step_Ret _ _ this _ _ _ memo _ _ _ _ E)).
      destruct u. apply IH.
    + rewrite (bind_Throw _ _ _ _ _ _ _ E).
      rewrite (bind_Throw _ _ _ _ _ _ _
                 (reduce_step_Throw _ _ this _ _ _ memo _ _ _ _ E)).
      split; intros ? ? ? H; [discriminate|].
      injection H as <- _ <-. split; [exact (Q _ _ _ _ _ _ _ E) | eauto].
Qed.

Lemma reduce_on_any_host host id xs memo (c : closure U unit) context s :
  quiet (JFun c) ->
  reduce host (VArr id xs) memo (JFun c) context tt s
  = native_reduce (VArr id xs) (bind_context (JFun c) context) memo tt s.
Proof.
  intros Q. unfold reduce, native_slot, has_native_method. cbn [nullish isArray].
  destruct (has_reduce host); [reflexivity|].
  rewrite (bind_Ret _ _ _ _ false tt s) by reflexivity.
  unfold native_reduce. cbn [callable bind_context lambda elements].
  fold (bind_context (JFun c) context).
  destruct (reduce_step_loop (JFun c) context (VArr id xs)
              (receiver_of host (VArr id xs) VUndef) (indexed xs) Q memo s)
    as [HR HT].
  destruct (reduce_loop (VArr id xs) (bind_context (JFun c) context)
              (indexed xs) memo tt s) as [[[r|x] u] s'] eqn:E.
  - rewrite (bind_Ret (with_locals _ _) _ _ _ (VArr id xs, r) tt s').
    + destruct u; reflexivity.
    + apply each_with_locals_returns; [reflexivity|reflexivity|].
      rewrite indexed_entries. apply (HR r u s' eq_refl).
  - destruct (HT x u s' eq_refl) as (D & memo' & H).
    rewrite (bind_Throw (with_locals _ _) _ _ _ x tt s').
    + destruct u; reflexivity.
    + apply (each_with_locals_throws host (VArr id xs) _ VUndef tt memo memo');
        [reflexivity|reflexivity| |exact D].
      rewrite indexed_entries. exact H.
Qed.

(** One call of the function that [some] hands to [each]. *)
Lemma some_step_Ret cb context this v k O acc s x u s1 :
  call cb context [v; k; O] tt s = (Ret x, u, s1) ->
  (call (some_step cb context) this [v; k; O] ;;; ret tt) acc s
  = if truthy x then (Throw Break, x, s1) else (Ret tt, x, s1).
Proof.
  intros E. unfold some_step, lambda, call at 1, fn_body. cbn [arg nth].
  unfold bind, set_local. rewrite call_lift_fn. unfold lift. rewrite E.
  destruct (truthy x); reflexivity.
Qed.

Lemma some_step_Throw cb context this v k O acc s x u s1 :
  call cb context [v; k; O] tt s = (Throw x, u, s1) ->
  (call (some_step cb context) this [v; k; O] ;;; ret tt) acc s
  = (Throw x, acc, s1).
Proof.
  intros E. unfold some_step, lambda, call at 1, fn_body. cbn [arg nth].
  unfold bind, set_local. rewrite call_lift_fn. unfold lift. rewrite E.
  reflexivity.
Qed.

(** The host's [some] answers the truth value of what the loop through
    [each] leaves in [result]. *)
Lemma some_step_loop cb context O this items :
  quiet cb ->
  forall acc s,
    truthy acc = false ->
    (forall b u s',
       some_loop O cb context items tt s = (Ret b, u, s') ->
       exists r,
         b = VBool (truthy r) /\
         (for_list (List.map visit items)
            (fun kv =>
               call (some_step cb context) this [snd kv; fst kv; O] ;;; ret tt)
            acc s = (Ret tt, r, s') \/
          for_list (List.map visit items)
            (fun kv =>
               call (some_step cb context) this [snd kv; fst kv; O] ;;; ret tt)
            acc s = (Throw Break, r, s'))) /\
    (forall x u s',
       some_loop O cb context items tt s = (Throw x, u, s') ->
       differs_from_Break x = true /\
       exists r,
         for_list (List.map visit items)
           (fun kv =>
              call (some_step cb context) this [snd kv; fst kv; O] ;;; ret tt)
           acc s = (Throw x, r, s')).
Proof.
  intros Q. induction items as [|[k v] items IH]; intros acc s T.
  - split; intros ? ? ? H; [|discriminate].
    injection H as <- _ <-. exists acc. rewrite T. auto.
  - cbn [some_loop List.map for_list visit fst snd].
    destruct (call cb context [v; num k; O] tt s) as [[[x|x] u] s1] eqn:E.
    + rewrite (bind_Ret _ _ _ _ _ _ _ E).
      assert (S := some_step_Ret _ _ this _ _ _ acc _ _ _ _ E).
      destruct (truthy x) eqn:Tx.
      * rewrite (bind_Throw _ _ _ _ _ _ _ S).
        split; intros ? ? ? H; [|discriminate].
        injection H as <- _ <-. exists x. rewrite Tx. auto.
      * rewrite (bind_Ret _ _ _ _ _ _ _ S). destruct u. apply IH, Tx.
    + rewrite (bind_Throw _ _ _ _ _ _ _ E).
      rewrite (bind_Throw _ _ _ _ _ _ _
                 (some_step_Throw _ _ this _ _ _ acc _ _ _ _ E)).
      split; intros ? ? ? H; [discriminate|].
      injection H as <- _ <-. split; [exact (Q _ _ _ _ _ _ _ E) | eauto].
Qed.

Lemma some_on_any_host host id xs (c : closure U unit) context s :
  quiet (JFun c) ->
  as_boolean (some host (VArr id xs) (JFun c) context tt s)
  = native_some (VArr id xs) (JFun c) context tt s.
Proof.
  intros Q. unfold some, native_slot, has_native_method.
  cbn [nullish isArray or_identity].
  unfold native_some. cbn [callable elements].
  destruct (some_step_loop (JFun c) context (VArr id xs)
              (receiver_of host (VArr id xs) VUndef) (indexed xs) Q
              (VBool false) s eq_refl) as [HR HT].
  destruct (some_loop (VArr id xs) (JFun c) context (indexed xs) tt s)
    as [[[b|x] u] s'] eqn:E.
  - destruct (HR b u s' eq_refl) as (r & -> & H).
    destruct (has_some host).
    + rewrite (bind_Ret _ _ _ _ true tt s) by reflexivity.
      unfold native_some. cbn [callable elements]. rewrite E.
      destruct u. cbn. destruct (truthy r); reflexivity.
    + rewrite (bind_Ret _ _ _ _ false tt s) by reflexivity.
      rewrite (bind_Ret (with_locals _ _) _ _ _ (VArr id xs, r) tt s').
      * destruct u; reflexivity.
      * destruct H as [H|H].
        -- apply each_with_locals_returns; [reflexivity|reflexivity|].
           rewrite indexed_entries. exact H.
        -- apply (each_with_locals_breaks host (VArr id xs) _ VUndef tt
                    (VBool false) r s s' Break); [reflexivity|reflexivity| |reflexivity].
           rewrite indexed_entries. exact H.
  - destruct (HT x u s' eq_refl) as (D & r & H).
    destruct (has_some host).
    + rewrite (bind_Ret _ _ _ _ true tt s) by reflexivity.
      unfold native_some. cbn [callable elements]. rewrite E. reflexivity.
    + rewrite (bind_Ret _ _ _ _ false tt s) by reflexivity.
      rewrite (bind_Throw (with_locals _ _) _ _ _ x tt s').
      * destruct u; reflexivity.
      * apply (each_with_locals_throws host (VArr id xs) _ VUndef tt
                 (VBool false) r); [reflexivity|reflexivity| |exact D].
        rewrite indexed_entries. exact H.
Qed.

(** One call of the function that [all] hands to [each]. *)
Lemma all_step_Ret cb context this v k O acc s x u s1 :
  truthy acc = true ->
  call cb context [v; k; O] tt s = (Ret x, u, s1) ->
  (call (all_step cb context) this [v; k; O] ;;; ret tt) acc s
  = if truthy x then (Ret tt, x, s1) else (Throw Break, x, s1).
Proof.
  intros A E. unfold all_step, lambda, call at 1, fn_body. cbn [arg nth].
  unfold bind, get_local, set_local. rewrite A, call_lift_fn. unfold lift.
  rewrite E. destruct (truthy x); reflexivity.
Qed.

Lemma all_step_Throw cb context this v k O acc s x u s1 :
  truthy acc = true ->
  call cb context [v; k; O] tt s = (Throw x, u, s1) ->
  (call (all_step cb context) this [v; k; O] ;;; ret tt) acc s
  = (Throw x, acc, s1).
Proof.
  intros A E. unfold all_step, lambda, call at 1, fn_body. cbn [arg nth].
  unfold bind, get_local, set_local. rewrite A, call_lift_fn. unfold lift.
  rewrite E. reflexivity.
Qed.

Lemma all_step_loop cb context O this items :
  quiet cb ->
  forall acc s,
    truthy acc = true ->
    (forall b u s',
       every_loop O cb context items tt s = (Ret b, u, s') ->
       exists r,
         b = VBool (truthy r) /\
         (for_list (List.map visit items)
            (fun kv =>
               call (all_step cb context) this [snd kv; fst kv; O] ;;; ret tt)
            acc s = (Ret tt, r, s') \/
          for_list (List.map visit items)
            (fun kv =>
               call (all_step cb context) this [snd kv; fst kv; O] ;;; ret tt)
            acc s = (Throw Break, r, s'))) /\
    (forall x u s',
       every_loop O cb context items tt s = (Throw x, u, s') ->
       differs_from_Break x = true /\
       exists r,
         for_list (List.map visit items)
           (fun kv =>
              call (all_step cb context) this [snd kv; fst kv; O] ;;; ret tt)
           acc s = (Throw x, r, s')).
Proof.
  intros Q. induction items as [|[k v] items IH]; intros acc s T.
  - split; intros ? ? ? H; [|discriminate].
    injection H as <- _ <-. exists acc. rewrite T. auto.
  - cbn [every_loop List.map for_list visit fst snd].
    destruct (call cb context [v; num k; O] tt s) as [[[x|x] u] s1] eqn:E.
    + rewrite (bind_Ret _ _ _ _ _ _ _ E).
      assert (S := all_step_Ret _ _ this _ _ _ acc _ _ _ _ T E).
      destruct (truthy x) eqn:Tx.
      * rewrite (bind_Ret _ _ _ _ _ _ _ S). destruct u. apply IH, Tx.
      * rewrite (bind_Throw _ _ _ _ _ _ _ S).
        split; intros ? ? ? H; [|discriminate].
        injection H as <- _ <-. exists x. rewrite Tx. auto.
    + rewrite (bind_Throw _ _ _ _ _ _ _ E).
      rewrite (bind_Throw _ _ _ _ _ _ _
                 (all_step_Throw _ _ this _ _ _ acc _ _ _ _ T E)).
      split; intros ? ? ? H; [discriminate|].
      injection H as <- _ <-. split; [exact (Q _ _ _ _ _ _ _ E) | eauto].
Qed.

Lemma all_on_any_host host id xs (c : closure U unit) context s :
  quiet (JFun c) ->
  as_boolean (all host (VArr id xs) (JFun c) context tt s)
  = native_every (VArr id xs) (JFun c) context tt s.
Proof.
  intros Q. unfold all, native_slot, has_native_method.
  cbn [nullish isArray or_identity].
  unfold native_every. cbn [callable elements].
  destruct (all_step_loop (JFun c) context (VArr id xs)
              (receiver_of host (VArr id xs) VUndef) (indexed xs) Q
              (VBool true) s eq_refl) as [HR HT].
  destruct (every_loop (VArr id xs) (JFun c) context (indexed xs) tt s)
    as [[[b|x] u] s'] eqn:E.
  - destruct (HR b u s' eq_refl) as (r & -> & H).
    destruct (has_every host).
    + rewrite (bind_Ret _ _ _ _ true tt s) by reflexivity.
      unfold native_every. cbn [callable elements]. rewrite E.
      destruct u. cbn. destruct (truthy r); reflexivity.
    + rewrite (bind_Ret _ _ _ _ false tt s) by reflexivity.
      rewrite (bind_Ret (with_locals _ _) _ _ _ (VArr id xs, r) tt s').
      * destruct u; reflexivity.
      * destruct H as [H|H].
        -- apply each_with_locals_returns; [reflexivity|reflexivity|].
           rewrite indexed_entries. exact H.
        -- apply (each_with_locals_breaks host (VArr id xs) _ VUndef tt
                    (VBool true) r s s' Break); [reflexivity|reflexivity| |reflexivity].
           rewrite indexed_entries. exact H.
  - destruct (HT x u s' eq_refl) as (D & r & H).
    destruct (has_every host).
    + rewrite (bind_Ret _ _ _ _ true tt s) by reflexivity.
      unfold native_every. cbn [callable elements]. rewrite E. reflexivity.
    + rewrite (bind_Ret _ _ _ _ false tt s) by reflexivity.
      rewrite (bind_Throw (with_locals _ _) _ _ _ x tt s').
      * destruct u; reflexivity.
      * apply (each_with_locals_throws host (VArr id xs) _ VUndef tt
                 (VBool true) r); [reflexivity|reflexivity| |exact D].
        rewrite indexed_entries. exact H.
Qed.

Lemma strict_eq_sym a b : strict_eq a b = strict_eq b a.
Proof.
  destruct a, b; cbn; try reflexivity.
  - destruct b0, b; reflexivity.
  - apply Z.eqb_sym.
  - apply String.eqb_sym.
  - apply Nat.eqb_sym.
  - apply Nat.eqb_sym.
  - apply Nat.eqb_sym.
  - apply Nat.eqb_sym.
  - apply Nat.eqb_sym.
Qed.

(** The function that [include] hands to [each], over the elements. *)
Lemma include_step_loop target O this items acc s :
  for_list (List.map visit items)
    (fun kv => call (include_step target) this [snd kv; fst kv; O] ;;; ret tt)
    acc s =
  if existsb (fun kv => strict_eq (snd kv) target) items
  then (Throw Break, VBool true, s)
  else (Ret tt, match items with [] => acc | _ => VBool false end, s).
Proof.
  revert acc. induction items as [|[k v] items IH]; intros acc; [reflexivity|].
  cbn [List.map for_list visit fst snd existsb].
  destruct (strict_eq v target) eqn:E; cbn [orb].
  - apply bind_Throw. unfold include_step, lambda, call, fn_body.
    cbn [arg nth]. unfold bind, set_local. rewrite E. reflexivity.
  - rewrite (bind_Ret _ _ _ _ tt (VBool false) s).
    + rewrite IH. destruct (existsb _ items); [reflexivity|].
      destruct items; reflexivity.
    + unfold include_step, lambda, call, fn_body.
      cbn [arg nth]. unfold bind, set_local. rewrite E. reflexivity.
Qed.

Lemma indexOf_loop_found target items :
  Forall (fun kv => (0 <= Z.of_nat (fst kv))%Z) items ->
  negb (Z.eqb (indexOf_loop target items) (-1))
  = existsb (fun kv : nat * value => strict_eq (snd kv) target) items.
Proof.
  induction items as [|[k v] items IH]; intros F; [reflexivity|].
  cbn [indexOf_loop existsb fst snd]. rewrite (strict_eq_sym target v).
  destruct (strict_eq v target); cbn [orb].
  - destruct (Z.eqb_spec (Z.of_nat k) (-1)); [lia|reflexivity].
  - apply IH. inversion F; assumption.
Qed.

Lemma indexed_values xs : List.map snd (indexed xs) = xs.
Proof.
  unfold indexed. rewrite List.map_map. cbn [snd].
  induction xs as [|x xs IH] using rev_ind; [reflexivity|].
  rewrite length_app. cbn [List.length]. rewrite Nat.add_1_r, seq_S, map_app.
  cbn [List.map Nat.add]. rewrite app_nth2 by lia. rewrite Nat.sub_diag.
  cbn [nth]. f_equal.
  rewrite <- IH at 2. apply map_ext_in. intros k I. apply in_seq in I.
  apply app_nth1. lia.
Qed.

(** [include] does not depend on the host. *)
Lemma include_on_any_host host id xs target s :
  include host (VArr id xs) target tt s
  = (Ret (VBool (existsb (fun x => strict_eq x target) xs)), tt, s).
Proof.
  assert (X : existsb (fun kv : nat * value => strict_eq (snd kv) target)
                (indexed xs)
              = existsb (fun x => strict_eq x target) xs).
  { rewrite <- (indexed_values xs) at 2.
    induction (indexed xs) as [|kv items IH]; [reflexivity|].
    cbn [existsb List.map]. rewrite IH. reflexivity. }
  unfold include, native_slot, has_native_method. cbn [nullish isArray].
  destruct (has_indexOf host).
  - rewrite (bind_Ret _ _ _ _ true tt s) by reflexivity.
    unfold native_indexOf, ret. cbn [strict_eq elements].
    rewrite indexOf_loop_found, X; [reflexivity|].
    apply Forall_forall. intros kv _. lia.
  - rewrite (bind_Ret _ _ _ _ false tt s) by reflexivity.
    assert (S := include_step_loop target (VArr id xs)
                   (receiver_of host (VArr id xs) VUndef) (indexed xs)
                   (VBool false) s).
    rewrite X in S.
    destruct (existsb (fun x => strict_eq x target) xs).
    + rewrite (bind_Ret (with_locals _ _) _ _ _ (VArr id xs, VBool true) tt s);
        [reflexivity|].
      apply (each_with_locals_breaks host (VArr id xs) _ VUndef tt
               (VBool false) (VBool true) s s Break);
        [reflexivity|reflexivity| |reflexivity].
      rewrite indexed_entries. exact S.
    + rewrite (bind_Ret (with_locals _ _) _ _ _ (VArr id xs, VBool false) tt s);
        [reflexivity|].
      apply each_with_locals_returns; [reflexivity|reflexivity|].
      rewrite indexed_entries. refine (eq_trans S _).
      destruct (indexed xs); reflexivity.
Qed.

(** On a true array, and with a callback that is a function and does not
    throw what [each] swallows, the result of [map], [filter], [reduce] and
    [include] does not depend on which methods the host has, and neither
    does the truth value of the result of [some] and [all]. *)
Theorem paths_agree host host' id xs (c : closure U unit) context s :
  quiet (JFun c) ->
  map host (VArr id xs) (JFun c) context tt s
  = map host' (VArr id xs) (JFun c) context tt s /\
  filter host (VArr id xs) (JFun c) context tt s
  = filter host' (VArr id xs) (JFun c) context tt s /\
  (forall memo,
     reduce host (VArr id xs) memo (JFun c) context tt s
     = reduce host' (VArr id xs) memo (JFun c) context tt s) /\
  (forall target,
     include host (VArr id xs) target tt s
     = include host' (VArr id xs) target tt s) /\
  as_boolean (some host (VArr id xs) (JFun c) context tt s)
  = as_boolean (some host' (VArr id xs) (JFun c) context tt s) /\
  as_boolean (all host (VArr id xs) (JFun c) context tt s)
  = as_boolean (all host' (VArr id xs) (JFun c) context tt s).
Proof.
  intros Q. repeat split.
  - rewrite !map_on_any_host by exact Q. reflexivity.
  - rewrite !filter_on_any_host by exact Q. reflexivity.
  - intros memo. rewrite !reduce_on_any_host by exact Q. reflexivity.
  - intros target. rewrite !include_on_any_host. reflexivity.
  - rewrite !some_on_any_host by exact Q. reflexivity.
  - rewrite !all_on_any_host by exact Q. reflexivity.
Qed.

End Paths.

(** * More about the traversal engine *)

Section EachMore.

Context {U L : Type}.
Implicit Types (host : Host) (s : state U) (l : L) (cb : jsval U L).

(** X1: whatever the collection, the callback and the path taken, and
    whether or not the traversal was broken off, [each] either returns the
    very collection it was given or throws; and what it throws is never the
    [Break] object. *)
Theorem each_returns_its_argument host e cb context l s :
  match each host e cb context l s with
  | (Ret v, _, _) => v = e
  | (Throw x, _, _) => differs_from_Break x = true /\ strict_eq x Break = false
  end.
Proof.
  unfold each, bind, try_catch, handler.
  destruct (traverse host e cb context l s) as [[[[]|x] l'] s'];
    [reflexivity|].
  destruct (differs_from_Break x) eqn:D; [|reflexivity].
  cbn. split; [exact D|].
  unfold differs_from_Break, loose_eq_plain_object in D.
  destruct x; try reflexivity.
  apply Bool.negb_true_iff in D. exact D.
Qed.


End EachMore.


(** * [map] and [reduce] *)

Section MapReduceMore.

Context {U : Type}.
Implicit Types (host : Host) (s : state U).



(** The test for the host's method fails. *)
Lemma native_slot_false {A} (provided : bool) e (k : bool -> M U unit A) s :
  nullish e = false ->
  provided && isArray e = false ->
  bind (native_slot provided e) k tt s = k false tt s.
Proof.
  intros N F. unfold native_slot, has_native_method. rewrite N.
  destruct provided; [|reflexivity].
  simpl in F. rewrite F. reflexivity.
Qed.

Lemma allocated {A} (k : nat -> M U unit A) s :
  bind alloc k tt s
  = k (next_id s) tt (mkState (S (next_id s)) (chainers s) (user s)).
Proof. reflexivity. Qed.





(** X5: on a collection with nothing to visit, [reduce] returns [memo] and
    changes nothing, on every host and whatever the callback function does
    when called: it is never called. *)
Theorem reduce_of_nothing host e memo (c : closure U unit) context s :
  nullish e = false ->
  entries (chainers s) e = [] ->
  reduce host e memo (JFun c) context tt s = (Ret memo, tt, s).
Proof.
  intros N E. unfold reduce.
  destruct (has_reduce host && isArray e) eqn:F.
  - apply andb_prop in F. destruct F as [F A].
    unfold native_slot, has_native_method. rewrite N, F, A.
    rewrite (bind_Ret _ _ _ _ true tt s) by reflexivity.
    destruct e; try discriminate.
    rewrite indexed_entries in E. apply map_eq_nil in E.
    unfold native_reduce. cbn [callable bind_context lambda elements].
    rewrite E. reflexivity.
  - rewrite native_slot_false by assumption.
    rewrite (bind_Ret (with_locals _ _) _ _ _ (e, memo) tt s); [reflexivity|].
    apply each_with_locals_returns; [exact N|reflexivity|].
    rewrite E. reflexivity.
Qed.


End MapReduceMore.



(** X5 (witness): the empty array and a callback that would throw. *)
Lemma reduce_of_nothing_witness :
  reduce modern (arr 5 []) (VNum 10) (JFun (mkClosure 102 0 (fun _ _ => throw VNull)))
    VUndef tt (initial tt)
  = (Ret (VNum 10), tt, initial tt).
Proof.
  apply (reduce_of_nothing modern (arr 5 []) (VNum 10) _ VUndef (initial tt));
    reflexivity.
Defined.


(** * Stopping early: [detect], [some], [all] *)

Section ShortCircuit.

Implicit Types (host : Host) (s : state (list value)) (f : value -> value).


















End ShortCircuit.




(** * [include], [tail], [pluck] *)

Section IncludeTailPluck.

Context {U : Type}.
Implicit Types (host : Host) (s : state U).




End IncludeTailPluck.


Section TailPluck.

Context {U : Type}.
Implicit Types (host : Host) (s : state U).

Lemma map_nth_skipn (xs : list value) k :
  k <= List.length xs ->
  List.map (fun i => nth i xs VUndef) (seq k (List.length xs - k)) = skipn k xs.
Proof.
  revert k. induction xs as [|x xs IH]; intros k H.
  - cbn in H. replace k with 0 by lia. reflexivity.
  - destruct k as [|k].
    + cbn [List.length Nat.sub seq List.map nth skipn]. f_equal.
      rewrite <- seq_shift, List.map_map. cbn [nth].
      specialize (IH 0 (Nat.le_0_l _)). rewrite Nat.sub_0_r in IH. exact IH.
    + cbn [List.length Nat.sub skipn].
      rewrite <- seq_shift, List.map_map. cbn [nth].
      apply IH. cbn in H. lia.
Qed.

(** The slice of an array from a position between 0 and its length. *)
Lemma slice_from id xs (start : value) s :
  (Z.of_nat (List.length xs) < 2 ^ 32)%Z ->
  native_slice (VArr id xs) start tt s
  = (Ret (VArr (next_id s)
            (skipn
               (Z.to_nat
                  (if (to_integer start <? 0)%Z
                   then Z.max (Z.of_nat (List.length xs) + to_integer start) 0
                   else Z.min (to_integer start) (Z.of_nat (List.length xs))))
               xs)),
     tt, mkState (S (next_id s)) (chainers s) (user s)).
Proof.
  intros B. unfold native_slice, get_prop. cbn [nullish prop String.eqb].
  rewrite (bind_Ret _ _ _ _ (VNum (Z.of_nat (List.length xs))) tt s)
    by reflexivity.
  assert (E : to_uint32 (VNum (Z.of_nat (List.length xs)))
              = Z.of_nat (List.length xs)).
  { unfold to_uint32, to_integer, to_number. apply Z.mod_small. lia. }
  rewrite E. clear E.
  set (k := if (to_integer start <? 0)%Z then _ else _).
  assert (K : (0 <= k <= Z.of_nat (List.length xs))%Z).
  { subst k. destruct (to_integer start <? 0)%Z eqn:T.
    - apply Z.ltb_lt in T. lia.
    - apply Z.ltb_ge in T. lia. }
  rewrite allocated. cbn [chainers index_prop]. f_equal. f_equal. f_equal. f_equal.
  replace (Z.to_nat (Z.of_nat (List.length xs) - k))
    with (List.length xs - Z.to_nat k) by lia.
  apply map_nth_skipn. lia.
Qed.

(** X11: on an array (of less than 2^32 elements) [tail] returns a new
    array: without a start the elements but the first; with a start
    [n >= 0] the elements from index [n] on (none when [n] is past the end);
    with a start [n < 0] the last [-n] elements (all of them when the array
    is shorter). *)
Theorem tail_of_array id xs s :
  (Z.of_nat (List.length xs) < 2 ^ 32)%Z ->
  tail (VArr id xs) VUndef tt s
  = (Ret (VArr (next_id s) (skipn 1 xs)), tt,
     mkState (S (next_id s)) (chainers s) (user s)) /\
  (forall n,
     (0 <= n)%Z ->
     tail (VArr id xs) (VNum n) tt s
     = (Ret (VArr (next_id s) (skipn (Z.to_nat n) xs)), tt,
        mkState (S (next_id s)) (chainers s) (user s))) /\
  (forall n,
     (n < 0)%Z ->
     tail (VArr id xs) (VNum n) tt s
     = (Ret (VArr (next_id s) (skipn (List.length xs - Z.to_nat (- n)) xs)), tt,
        mkState (S (next_id s)) (chainers s) (user s))).
Proof.
  intros B.
  assert (Pos : forall n,
            (0 <= n)%Z ->
            native_slice (VArr id xs) (VNum n) tt s
            = (Ret (VArr (next_id s) (skipn (Z.to_nat n) xs)), tt,
               mkState (S (next_id s)) (chainers s) (user s))).
  { intros n H. rewrite slice_from by exact B.
    unfold to_integer, to_number.
    destruct (n <? 0)%Z eqn:T; [apply Z.ltb_lt in T; lia|].
    destruct (Z.le_gt_cases n (Z.of_nat (List.length xs))) as [Le|Gt].
    - rewrite Z.min_l by lia. reflexivity.
    - rewrite Z.min_r by lia. rewrite Nat2Z.id.
      rewrite skipn_all, skipn_all2 by lia. reflexivity. }
  split; [|split].
  - unfold tail. apply (Pos 1%Z). lia.
  - intros n H. unfold tail.
    destruct n; try lia; apply Pos; lia.
  - intros n H. unfold tail. rewrite slice_from by exact B.
    unfold to_integer, to_number.
    destruct (n <? 0)%Z eqn:T; [|apply Z.ltb_ge in T; lia].
    replace (Z.to_nat (Z.max (Z.of_nat (List.length xs) + n) 0))
      with (List.length xs - Z.to_nat (- n)) by lia.
    reflexivity.
Qed.

(** [tail] of [null] or [undefined] throws a [TypeError], whatever the
    start. *)
Lemma tail_of_nothing e start s :
  nullish e = true ->
  tail e start tt s
  = (Throw (VError (next_id s) "TypeError"), tt,
     mkState (S (next_id s)) (chainers s) (user s)).
Proof.
  intros N. unfold tail, native_slice. rewrite N. reflexivity.
Qed.

End TailPluck.

(** X11 (witness): [tail([1, 2, 3, 4, 5])], [tail([1, 2, 3, 4, 5], 3)] and
    [tail([1, 2, 3, 4, 5], -2)]. *)
Lemma tail_of_array_witness :
  tail (arr 5 [1; 2; 3; 4; 5]%Z) VUndef tt (initial tt)
  = (Ret (arr 1 [2; 3; 4; 5]%Z), tt, mkState 2 [] tt) /\
  tail (arr 5 [1; 2; 3; 4; 5]%Z) (VNum 3) tt (initial tt)
  = (Ret (arr 1 [4; 5]%Z), tt, mkState 2 [] tt) /\
  tail (arr 5 [1; 2; 3; 4; 5]%Z) (VNum (-2)) tt (initial tt)
  = (Ret (arr 1 [4; 5]%Z), tt, mkState 2 [] tt).
Proof.
  assert (B : (Z.of_nat (List.length (List.map VNum [1; 2; 3; 4; 5]%Z)) < 2 ^ 32)%Z)
    by (cbn; lia).
  destruct (tail_of_array 5 (List.map VNum [1; 2; 3; 4; 5]%Z) (initial tt) B)
    as (T1 & T2 & T3).
  split; [exact T1|]. split.
  - apply (T2 3%Z). lia.
  - apply (T3 (-2)%Z). lia.
Defined.

(** [tail(null)]. *)
Lemma tail_of_nothing_witness :
  tail VNull VUndef tt (initial tt)
  = (Throw (VError 1 "TypeError"), tt, mkState 2 [] tt).
Proof. apply (tail_of_nothing VNull VUndef (initial tt)). reflexivity. Defined.

Section Pluck.

Context {U : Type}.
Implicit Types (host : Host) (s : state U).





End Pluck.


(** * More about the chain wrapper *)

Section ChainMore.

Context {U : Type}.
Implicit Types (host : Host) (s : state U).

Lemma nth_replaced (cs : list value) w r :
  w <= List.length cs ->
  nth w (firstn w cs ++ r :: skipn (S w) cs) VUndef = r.
Proof.
  intros H. rewrite app_nth2; rewrite length_firstn; [|lia].
  replace (w - Nat.min w (List.length cs)) with 0 by lia. reflexivity.
Qed.

Lemma nth_not_replaced (cs : list value) w r i :
  w < List.length cs ->
  i <> w ->
  nth i (firstn w cs ++ r :: skipn (S w) cs) VUndef = nth i cs VUndef.
Proof.
  intros H D.
  rewrite <- (firstn_skipn w cs) at 3.
  destruct (Nat.lt_ge_cases i w) as [Lt|Ge].
  - rewrite !app_nth1 by (rewrite length_firstn; lia). reflexivity.
  - rewrite !app_nth2 by (rewrite length_firstn; lia).
    rewrite length_firstn. replace (Nat.min w (List.length cs)) with w by lia.
    destruct (i - w) as [|j] eqn:E; [lia|].
    cbn [nth]. rewrite !nth_skipn. f_equal. lia.
Qed.

(** X13: [chain] makes a new wrapper that holds the collection it was
    given: [values] on it returns that collection, as often as it is called
    and without changing anything; and the wrappers made before keep their
    results. *)
Theorem chain_then_values e s :
  exists s',
    chain e tt s = (Ret (VChainer (List.length (chainers s))), tt, s') /\
    values (List.length (chainers s)) tt s' = (Ret e, tt, s') /\
    (forall w, w < List.length (chainers s) ->
               values w tt s' = (Ret (nth w (chainers s) VUndef), tt, s')) /\
    next_id s' = next_id s /\ user s' = user s.
Proof.
  eexists. split; [reflexivity|]. cbn [next_id user chainers].
  repeat split.
  - unfold values, get_prop. cbn [nullish prop String.eqb chainers].
    rewrite app_nth2 by lia. rewrite Nat.sub_diag. reflexivity.
  - intros w H. unfold values, get_prop. cbn [nullish prop String.eqb chainers].
    rewrite app_nth1 by exact H. reflexivity.
Qed.

(** X14: a chaining method other than [reject], called on a wrapper that
    still exists when the function of the module returns, leaves in the
    wrapper exactly what the function of the module returns for the
    wrapper's results followed by the arguments, and returns the wrapper:
    [values] then gives that value, and no other wrapper is touched. *)
Theorem chaining_then_values host w name f m args s r s' :
  find_member name Chainer_prototype = Some (Some f) ->
  run host f = Some m ->
  f <> F_reject ->
  m TheModule (JVal (nth w (chainers s) VUndef) :: args) tt s = (Ret r, tt, s') ->
  w < List.length (chainers s') ->
  exists s'',
    send host w name args tt s = (Ret (VChainer w), tt, s'') /\
    send host w "values" [] tt s'' = (Ret r, tt, s'') /\
    (forall i, i <> w ->
               nth i (chainers s'') VUndef = nth i (chainers s') VUndef) /\
    next_id s'' = next_id s' /\ user s'' = user s'.
Proof.
  intros F R N H W.
  exists (mkState (next_id s')
            (firstn w (chainers s') ++ r :: skipn (S w) (chainers s'))
            (user s')).
  split; [|split; [|split; [|split; reflexivity]]].
  - rewrite (send_calls_the_module host w name f m args s F R N).
    unfold values, get_prop. cbn [nullish prop String.eqb].
    rewrite (bind_Ret _ _ _ _ (nth w (chainers s) VUndef) tt s) by reflexivity.
    rewrite (bind_Ret _ _ _ _ r tt s' H). reflexivity.
  - unfold send, values, get_prop.
    cbn [String.eqb Ascii.eqb Bool.eqb nullish prop chainers].
    rewrite nth_replaced by lia. reflexivity.
  - intros i D. cbn [chainers]. apply nth_not_replaced; assumption.
Qed.

End ChainMore.

(** X14 (witness): [chain([1, 2, 3, 4]).filter(even)] followed by
    [values()], in a state where the wrapper is the only one. *)
Lemma chaining_then_values_witness :
  exists s'',
    send modern 0 "filter" [even] tt (mkState 1 [arr 5 [1; 2; 3; 4]%Z] tt)
    = (Ret (VChainer 0), tt, s'') /\
    send modern 0 "values" [] tt s'' = (Ret (arr 1 [2; 4]%Z), tt, s'') /\
    (forall i, i <> 0 ->
               nth i (chainers s'') VUndef
               = nth i (chainers (mkState 2 [arr 5 [1; 2; 3; 4]%Z] tt)) VUndef) /\
    next_id s'' = 2 /\ user s'' = tt.
Proof.
  apply (chaining_then_values modern 0 "filter" F_filter (filter_method modern)
           [even] (mkState 1 [arr 5 [1; 2; 3; 4]%Z] tt) (arr 1 [2; 4]%Z)
           (mkState 2 [arr 5 [1; 2; 3; 4]%Z] tt)).
  - reflexivity.
  - reflexivity.
  - discriminate.
  - reflexivity.
  - cbn. lia.
Defined.

(** * More about [flatten] *)

Module FlattenMore.

Import Store.
Import StoreFacts.

(** The accumulator of [flatten] is an array allocated after [st0], in a
    store that is [st0] followed by new arrays. *)
Lemma push_appends (st0 new : store) memo x :
  List.length st0 <= memo < List.length (st0 ++ new) ->
  exists new',
    push memo x (st0 ++ new) = Some (tt, st0 ++ new') /\
    List.length (st0 ++ new') = List.length (st0 ++ new).
Proof.
  intros H. unfold push. rewrite update_new by lia.
  eexists. split; [reflexivity|].
  rewrite <- update_new by lia. apply length_update. lia.
Qed.

(** The loops only append to the store when their body does. *)
Lemma loop_appends (guarded : bool) (st0 : store) (a : nat)
  (body : nat -> sval -> SM nat) :
  (forall acc x new acc' st',
     List.length st0 <= acc < List.length (st0 ++ new) ->
     body acc x (st0 ++ new) = Some (acc', st') ->
     exists new',
       st' = st0 ++ new' /\
       List.length st0 <= acc' < List.length (st0 ++ new')) ->
  forall n k acc new acc' st',
    List.length st0 <= acc < List.length (st0 ++ new) ->
    loop guarded a k n acc body (st0 ++ new) = Some (acc', st') ->
    exists new',
      st' = st0 ++ new' /\
      List.length st0 <= acc' < List.length (st0 ++ new').
Proof.
  intros Hbody. induction n as [|n IH]; intros k acc new acc' st' Hacc H.
  - injection H as <- <-. eauto.
  - cbn [loop] in H.
    assert (Step : forall x,
              bind (body acc x)
                (fun acc0 => loop guarded a (S k) n acc0 body) (st0 ++ new)
              = Some (acc', st') ->
              exists new',
                st' = st0 ++ new' /\
                List.length st0 <= acc' < List.length (st0 ++ new')).
    { intros x Hx. unfold bind in Hx.
      destruct (body acc x (st0 ++ new)) as [[acc1 st1]|] eqn:B; [|discriminate].
      destruct (Hbody acc x new acc1 st1 Hacc B) as (new1 & -> & Hacc1).
      apply (IH (S k) acc1 new1 acc' st' Hacc1 Hx). }
    destruct (nth_error (get (st0 ++ new) a) k) as [x|].
    + apply (Step x H).
    + destruct guarded.
      * apply (IH (S k) acc new acc' st' Hacc H).
      * apply (Step SUndef H).
Qed.

(** The callback of [flatten] only appends when the calls of [flatten] it
    makes do. *)
Lemma callback_appends (flatten' : nat -> SM nat) (st0 : store) :
  (forall inner st r st',
     flatten' inner st = Some (r, st') ->
     exists new, st' = st ++ new /\ List.length st <= r < List.length st') ->
  forall acc x new acc' st',
    List.length st0 <= acc < List.length (st0 ++ new) ->
    match x with
    | SArr inner => bind (flatten' inner) (fun flat => concat acc flat)
    | _ => bind (push acc x) (fun _ => ret acc)
    end (st0 ++ new) = Some (acc', st') ->
    exists new',
      st' = st0 ++ new' /\
      List.length st0 <= acc' < List.length (st0 ++ new').
Proof.
  intros Hf acc x new acc' st' Hacc H.
  assert (P : bind (push acc x) (fun _ => ret acc) (st0 ++ new)
              = Some (acc', st') ->
              exists new',
                st' = st0 ++ new' /\
                List.length st0 <= acc' < List.length (st0 ++ new')).
  { intros HP. destruct (push_appends st0 new acc x Hacc) as (new' & E & Len).
    unfold bind in HP. rewrite E in HP. injection HP as <- <-.
    exists new'. split; [reflexivity|]. rewrite Len. exact Hacc. }
  destruct x as [| |b|n|t|o|inner]; try (apply P, H).
  unfold bind in H.
  destruct (flatten' inner (st0 ++ new)) as [[r st1]|] eqn:F; [|discriminate].
  destruct (Hf inner (st0 ++ new) r st1 F) as (new2 & -> & Hr).
  unfold concat, alloc in H. injection H as <- <-.
  eexists. split; [rewrite <- !app_assoc; reflexivity|].
  rewrite !length_app in *. cbn [List.length]. lia.
Qed.

Lemma flatten_appends fuel host :
  forall a st r st',
    flatten fuel host a st = Some (r, st') ->
    exists new, st' = st ++ new /\ List.length st <= r < List.length st'.
Proof.
  induction fuel as [|fuel IH]; intros a st r st' H; [discriminate|].
  cbn [flatten] in H. unfold bind at 1, alloc in H.
  assert (Hacc : List.length st <= List.length st < List.length (st ++ [[]]))
    by (rewrite length_app; cbn [List.length]; lia).
  assert (L : forall guarded n,
            loop guarded a 0 n (List.length st)
              (fun memo value =>
                 match value with
                 | SArr inner =>
                     bind (flatten fuel host inner) (fun flat => concat memo flat)
                 | _ => bind (push memo value) (fun _ => ret memo)
                 end) (st ++ [[]]) = Some (r, st') ->
            exists new, st' = st ++ new /\ List.length st <= r < List.length st').
  { intros guarded n HL.
    destruct (loop_appends guarded st a _
                (callback_appends (flatten fuel host) st IH)
                n 0 (List.length st) [[]] r st' Hacc HL) as (new' & -> & Hr).
    eauto. }
  unfold reduce, each in H.
  destruct (has_reduce host); apply (L _ _ H).
Qed.

(** X15: whatever the store holds (arrays nested to any depth, arrays that
    contain themselves, references to arrays that do not exist), [flatten]
    never changes an array that exists: when it returns, the store is the
    store before the call followed by new arrays, and the result is one of
    the new ones. *)
Theorem flatten_only_appends fuel host a (st : store) r st' :
  flatten fuel host a st = Some (r, st') ->
  exists new,
    st' = st ++ new /\
    List.length st <= r < List.length st' /\
    (forall l, l < List.length st -> get st' l = get st l).
Proof.
  intros H. destruct (flatten_appends fuel host a st r st' H) as (new & -> & Hr).
  exists new. split; [reflexivity|]. split; [exact Hr|].
  intros l Hl. apply get_old, Hl.
Qed.

(** X15 (witness): [flatten([[2, 4], [[6], 8]])]. *)
Lemma flatten_only_appends_witness :
  exists new,
    two_levels
      ++ [[]; [SNum 2; SNum 4]; [SNum 2; SNum 4]; []; [SNum 6];
          [SNum 6; SNum 8]; [SNum 2; SNum 4; SNum 6; SNum 8]]
    = two_levels ++ new /\
    List.length two_levels <= 10
    < List.length
        (two_levels
           ++ [[]; [SNum 2; SNum 4]; [SNum 2; SNum 4]; []; [SNum 6];
               [SNum 6; SNum 8]; [SNum 2; SNum 4; SNum 6; SNum 8]]) /\
    (forall l, l < List.length two_levels ->
       get (two_levels
              ++ [[]; [SNum 2; SNum 4]; [SNum 2; SNum 4]; []; [SNum 6];
                  [SNum 6; SNum 8]; [SNum 2; SNum 4; SNum 6; SNum 8]]) l
       = get two_levels l).
Proof.
  apply (flatten_only_appends 3 modern 0 two_levels 10). reflexivity.
Defined.

Lemma in_store (st : store) a x : In x (get st a) -> a < List.length st.
Proof.
  intros H. destruct (Nat.lt_ge_cases a (List.length st)) as [L|G]; [exact L|].
  unfold get in H. rewrite nth_overflow in H by exact G. destruct H.
Qed.

(** A loop that meets an element on which its body does not return does not
    return. *)
Lemma loop_does_not_return (guarded : bool) (st0 : store) (a : nat)
  (body : nat -> sval -> SM nat) (bad : sval) :
  a < List.length st0 ->
  (forall acc x new acc' st',
     List.length st0 <= acc < List.length (st0 ++ new) ->
     body acc x (st0 ++ new) = Some (acc', st') ->
     exists new',
       st' = st0 ++ new' /\
       List.length st0 <= acc' < List.length (st0 ++ new')) ->
  (forall acc new, body acc bad (st0 ++ new) = None) ->
  forall n k acc new,
    k + n = List.length (get st0 a) ->
    In bad (skipn k (get st0 a)) ->
    List.length st0 <= acc < List.length (st0 ++ new) ->
    loop guarded a k n acc body (st0 ++ new) = None.
Proof.
  intros La Hbody Hbad. induction n as [|n IH]; intros k acc new Hk I Hacc.
  - rewrite skipn_all2 in I by lia. destruct I.
  - cbn [loop]. rewrite (get_old st0 new a La).
    destruct (nth_error (get st0 a) k) as [x|] eqn:E.
    + rewrite (skipn_nth_error _ _ _ E) in I. unfold bind.
      destruct I as [<- | I]; [rewrite Hbad; reflexivity|].
      destruct (body acc x (st0 ++ new)) as [[acc1 st1]|] eqn:B; [|reflexivity].
      destruct (Hbody acc x new acc1 st1 Hacc B) as (new1 & -> & Hacc1).
      apply IH; [lia|exact I|exact Hacc1].
    + apply nth_error_None in E. lia.
Qed.

(** X16: on an array that contains itself [flatten] does not return,
    whatever the budget of the recursion, the host, the other elements of
    the array and the rest of the store (in the program, the recursion does
    not end). *)
Theorem flatten_of_array_in_itself host (st : store) a :
  In (SArr a) (get st a) ->
  forall fuel, flatten fuel host a st = None.
Proof.
  intros I fuel. revert st I.
  induction fuel as [|fuel IH]; intros st I; [reflexivity|].
  assert (La := in_store st a _ I).
  cbn [flatten]. unfold bind at 1, alloc.
  assert (Hacc : List.length st <= List.length st < List.length (st ++ [[]]))
    by (rewrite length_app; cbn [List.length]; lia).
  assert (L : forall guarded,
            loop guarded a 0 (List.length (get (st ++ [[]]) a)) (List.length st)
              (fun memo value =>
                 match value with
                 | SArr inner =>
                     bind (flatten fuel host inner) (fun flat => concat memo flat)
                 | _ => bind (push memo value) (fun _ => ret memo)
                 end) (st ++ [[]]) = None).
  { intros guarded. rewrite (get_old st [[]] a La).
    apply (loop_does_not_return guarded st a _ (SArr a) La
             (callback_appends (flatten fuel host) st (flatten_appends fuel host)));
      [|reflexivity|exact I|exact Hacc].
    intros acc new. unfold bind. rewrite IH; [reflexivity|].
    rewrite (get_old st new a La). exact I. }
  unfold reduce, each.
  destruct (has_reduce host); apply L.
Qed.

(** X16 (witness): the array [a] with [a[1] = a]. *)
Lemma flatten_of_array_in_itself_witness :
  flatten 7 legacy 0 [[SNum 1; SArr 0]] = None.
Proof.
  apply (flatten_of_array_in_itself legacy [[SNum 1; SArr 0]] 0).
  right. left. reflexivity.
Defined.

(** [flatten] on an array of finite nesting: what it returns and holds. *)
Lemma flatten_grows host fuel :
  forall d (st : store) a,
    nested d st a ->
    d <= fuel ->
    grows st (flat d st a) (flatten fuel host a st).
Proof.
  induction fuel as [|fuel IH]; intros d st a Hn Hf.
  { destruct d; [destruct Hn | lia]. }
  destruct d as [|d]; [destruct Hn|].
  cbn [nested] in Hn. destruct Hn as [La F].
  cbn [flatten flat]. unfold bind at 1, alloc.
  set (body := fun (memo : nat) (value : sval) => _).
  set (adds := fun x : sval => match x with
                               | SArr b => flat d st b
                               | _ => [x]
                               end).
  assert (Hbody : forall acc x new,
            In x (get st a) ->
            List.length st <= acc < List.length (st ++ new) ->
            grows st (get (st ++ new) acc ++ adds x) (body acc x (st ++ new))).
  { intros acc x new I Hacc.
    rewrite Forall_forall in F. specialize (F x I).
    destruct x as [| |b|n|t|o|inner]; subst body adds; cbv beta iota;
      try (unfold bind, push, ret;
           rewrite update_new by lia;
           eexists; eexists; split; [reflexivity|];
           rewrite <- update_new by lia;
           rewrite length_update by lia;
           split; [lia|];
           rewrite get_update by lia; reflexivity).
    destruct (IH d (st ++ new) inner (nested_extends _ _ _ _ F) ltac:(lia))
      as (r & new2 & R & Hr & C).
    unfold bind. rewrite R. unfold concat, alloc.
    exists (List.length ((st ++ new) ++ new2)),
           (new ++ new2 ++ [get ((st ++ new) ++ new2) acc
                            ++ get ((st ++ new) ++ new2) r]).
    split; [rewrite !app_assoc; reflexivity|].
    split.
    - rewrite !length_app in *. cbn [List.length]. lia.
    - rewrite !app_assoc. unfold get at 1.
      rewrite app_nth2 by lia. rewrite Nat.sub_diag. cbn [nth].
      rewrite C, flat_extends by exact F.
      rewrite (get_old (st ++ new) new2) by lia. reflexivity. }
  assert (Hloop : forall guarded,
            grows st (flat_map adds (get st a))
              (loop guarded a 0 (List.length (get (st ++ [[]]) a))
                 (List.length st) body (st ++ [[]]))).
  { intros guarded. rewrite (get_old st [[]] a La).
    assert (Hacc : List.length st <= List.length st
                   < List.length (st ++ [[]]))
      by (rewrite length_app; cbn [List.length]; lia).
    assert (R := loop_grows guarded st a body adds La Hbody
                   (List.length (get st a)) 0 (List.length st) [[]]
                   eq_refl Hacc).
    rewrite get_new in R by lia. rewrite Nat.sub_diag in R.
    exact R. }
  unfold reduce, each.
  destruct (has_reduce host); apply Hloop.
Qed.

Lemma flat_holds_no_array d (st : store) a :
  Forall (fun x => isArray x = false) (flat d st a).
Proof.
  revert a. induction d as [|d IH]; intros a; [constructor|].
  cbn [flat]. induction (get st a) as [|x xs IHxs]; [constructor|].
  cbn [flat_map]. apply Forall_app. split; [|exact IHxs].
  destruct x; try (repeat constructor). apply IH.
Qed.

Lemma flat_of_flat (st : store) a d :
  Forall (fun x => isArray x = false) (get st a) ->
  flat (S d) st a = get st a.
Proof.
  cbn [flat]. induction (get st a) as [|x xs IH]; intros F; [reflexivity|].
  inversion F as [|? ? Hx F']. subst. cbn [flat_map].
  rewrite IH by exact F'. destruct x; try reflexivity. discriminate.
Qed.

Lemma nested_flat (st : store) a :
  a < List.length st ->
  Forall (fun x => isArray x = false) (get st a) ->
  nested 1 st a.
Proof.
  intros La F. split; [exact La|].
  eapply Forall_impl; [|exact F].
  intros [] H; try exact I. discriminate.
Qed.

(** X17: the array that [flatten] returns for an array of finite nesting
    holds no array: every element of it is a primitive or an object that is
    not an array, at whatever depth it was in the input. *)
Theorem flatten_result_is_flat host d fuel (st : store) a :
  nested d st a ->
  d <= fuel ->
  exists r st',
    flatten fuel host a st = Some (r, st') /\
    Forall (fun x => isArray x = false) (get st' r).
Proof.
  intros Hn Hf.
  destruct (flatten_grows host fuel d st a Hn Hf) as (r & new & R & _ & C).
  exists r, (st ++ new). split; [exact R|].
  rewrite C. apply flat_holds_no_array.
Qed.


(** X19: flattening twice is flattening once: for an array of finite
    nesting, [flatten] of the result of [flatten] returns another new array
    with the same elements as the first result, which is left as it was. *)
Theorem flatten_twice host host' d fuel fuel' (st : store) a :
  nested d st a ->
  d <= fuel ->
  1 <= fuel' ->
  exists r st1 r2 st2,
    flatten fuel host a st = Some (r, st1) /\
    flatten fuel' host' r st1 = Some (r2, st2) /\
    r2 <> r /\
    get st2 r2 = get st1 r /\
    get st2 r = get st1 r.
Proof.
  intros Hn Hf Hf'.
  destruct (flatten_grows host fuel d st a Hn Hf) as (r & new & R & Hr & C).
  assert (F : Forall (fun x => isArray x = false) (get (st ++ new) r))
    by (rewrite C; apply flat_holds_no_array).
  destruct (flatten_grows host' fuel' 1 (st ++ new) r
              (nested_flat _ r (proj2 Hr) F) Hf')
    as (r2 & new2 & R2 & Hr2 & C2).
  exists r, (st ++ new), r2, ((st ++ new) ++ new2).
  split; [exact R|]. split; [exact R2|]. split; [lia|]. split.
  - rewrite C2. apply flat_of_flat, F.
  - apply get_old. lia.
Qed.

(** X17 (witness): [flatten([[2, 4], [[6], 8]])] holds no array. *)
Lemma flatten_result_is_flat_witness :
  exists r st',
    flatten 3 legacy 0 two_levels = Some (r, st') /\
    Forall (fun x => isArray x = false) (get st' r).
Proof.
  apply (flatten_result_is_flat legacy 3 3 two_levels 0).
  - cbn. repeat (split || constructor || lia).
  - lia.
Defined.


(** X19 (witness): [flatten(flatten([[2, 4], [[6], 8]]))]. *)
Lemma flatten_twice_witness :
  exists r st1 r2 st2,
    flatten 3 modern 0 two_levels = Some (r, st1) /\
    flatten 1 legacy r st1 = Some (r2, st2) /\
    r2 <> r /\
    get st2 r2 = get st1 r /\
    get st2 r = get st1 r.
Proof.
  apply (flatten_twice modern legacy 3 3 1 two_levels 0).
  - cbn. repeat (split || constructor || lia).
  - lia.
  - lia.
Defined.

End FlattenMore.

(** * Breaking out of [each], and methods a wrapper does not have *)

Section BreakOut.

Context {L : Type}.
Implicit Types (host : Host) (s : state (list value)) (l : L)
  (f : value -> value).



End BreakOut.


Section UnknownMethod.

Context {U : Type}.
Implicit Types (host : Host) (s : state U).

Lemma find_member_none {A} name (tbl : list (string * A)) :
  mem_key name (List.map fst tbl) = false -> find_member name tbl = None.
Proof.
  induction tbl as [|[n x] tbl IH]; [reflexivity|].
  cbn [List.map fst mem_key existsb find_member]. unfold mem_key in IH.
  destruct (String.eqb name n); [discriminate|]. exact IH.
Qed.

(** X21: a function of the module that is not one of the thirteen chaining
    methods ([select], [inject], [every], [flatten], [invoke], [include],
    [chain], [identity]) is not a method of a chain wrapper: calling it on
    a wrapper throws a [TypeError] and leaves every wrapper as it was. *)
Theorem send_unlisted_function host w name f args s :
  find_member name enumerable_module = Some f ->
  chainable name = false ->
  send host w name args tt s
  = (Throw (VError (next_id s) "TypeError"), tt,
     mkState (S (next_id s)) (chainers s) (user s)).
Proof.
  intros M C. unfold send.
  destruct (String.eqb_spec name "values") as [E|_]; [subst; discriminate|].
  rewrite (find_member_none name Chainer_prototype C). reflexivity.
Qed.

End UnknownMethod.

(** X21 (witness): [chain([1, 2]).select(even)]. *)
Lemma send_unlisted_function_witness :
  send modern 0 "select" [even] tt (mkState 1 [arr 5 [1; 2]%Z] tt)
  = (Throw (VError 1 "TypeError"), tt, mkState 2 [arr 5 [1; 2]%Z] tt).
Proof.
  apply (send_unlisted_function modern 0 "select" F_filter [even]
           (mkState 1 [arr 5 [1; 2]%Z] tt)); reflexivity.
Defined.
